(** * plugin-fileuploader: the reload/shutdown supervisor of [server/server.go]

    The program is a handful of goroutines that talk over channels:
    [RunServer] (the caller's goroutine, parked on a wait group),
    [signalHandler], [runLoop] (the supervisor), one runner goroutine per
    server instance and one detached goroutine per reload.  It is embedded
    here as a labelled transition system: a [state] record holds the
    channels, the wait group, the local variables of [runLoop] and a
    program counter per goroutine; [step] executes the code between two
    blocking points of one goroutine and answers [None] where that
    goroutine would block.  What the absent collaborators do ([Config.Load],
    [UploadServer.Run], [Shutdown], the started channel, the operating
    system raising signals) is chosen by the label. *)

From stdpp Require Import gmap strings list.
From Stdlib Require Import ZArith Lia Ascii.

Open Scope string_scope.
Open Scope list_scope.
Open Scope nat_scope.

(** ** Data *)

(** Go [error] values met by [runLoop]: the sentinel [http.ErrServerClosed],
    compared by identity at line 121, and any other error. *)
Inductive error : Type :=
| ErrServerClosed
| ErrOther (msg : string).

#[global] Instance error_eq_dec : EqDecision error.
Proof. solve_decision. Defined.

(** Go's [(value, error)] return pair of a fallible function. *)
Inductive result (A : Type) : Type :=
| Ok (a : A)
| Err (e : error).
Arguments Ok {A} a.
Arguments Err {A} e.

(** The two fields of [serv.cfg.Server] that [runLoop] reads. *)
Record Config : Type := mkConfig {
  BasePath : string;
  ListenAddress : string
}.

(** [syscall.Signal] is an integer; the three signals named at line 40,
    with their Linux numbers. *)
Definition SIGHUP : Z := 1.
Definition SIGINT : Z := 2.
Definition SIGTERM : Z := 15.

(** An intent is a token on one of the two channels made at lines 21-22:
    [Reload] travels on [reloadRequested], [Shutdown] on [done]. *)
Inductive Intent : Type := Reload | Shutdown.

#[global] Instance Intent_eq_dec : EqDecision Intent.
Proof. solve_decision. Defined.

(** The pointer made at line 60, [&ReplaceableHandler{}]; a nil
    [*ReplaceableHandler] is [None]. *)
Inductive HandlerRef : Type := ReplaceableHandlerPtr.

(** [*http.ServeMux] as the list of the [Handle] calls made on it, oldest
    first.  What the mux does with a call (a real one panics on a pattern
    it already has) is not part of the record. *)
Definition ServeMux : Type := list (string * option HandlerRef).

Definition Handle (pattern : string) (h : option HandlerRef) (mux : ServeMux)
  : ServeMux := mux ++ [(pattern, h)].

(** [strings.HasSuffix]: some tail of [s] is [suffix]. *)
Fixpoint HasSuffix (s suffix : string) : bool :=
  if String.eqb s suffix then true
  else match s with
       | EmptyString => false
       | String _ s' => HasSuffix s' suffix
       end.

(** ** Channels *)

(** A buffered [chan struct{}] is the number of tokens it holds.  A send
    on a full channel and a receive on an empty one block: [None]. *)
Definition chan_send (capacity n : nat) : option nat :=
  if n <? capacity then Some (S n) else None.

Definition chan_recv (n : nat) : option nat :=
  match n with
  | O => None
  | S k => Some k
  end.

(** ** Goroutines *)

(** [signalHandler] is either at the receive of line 43 or at one of the
    sends of lines 46 and 51. *)
Inductive HandlerPc : Type :=
| HRecv
| HSend (k : Intent).

(** The goroutine of lines 97-102: inside [serv.Run], at the send of line
    100, or finished. [NotLaunched] is an instance whose iteration died
    before line 97. *)
Inductive Runner : Type :=
| NotLaunched
| InRun
| Sending (e : error)
| Exited.

(** One [UploadServer] value, the [serv] of an iteration.  [started] is
    the started channel having fired; [shutdownCalled] and [drained] are
    the two ends of a [serv.Shutdown()] call. *)
Record Inst : Type := mkInst {
  cfg : Config;
  runHandler : option HandlerRef;
  runner : Runner;
  started : bool;
  shutdownCalled : bool;
  drained : bool
}.

(** The detached goroutine of lines 136-141. *)
Inductive TaskPc : Type :=
| TaskSpawned
| TaskInShutdown
| TaskDone.

(** [runLoop]: the states of the supervisor.  [Starting] is line 64,
    [WaitStarted] the receive of line 105, [Running] the select of line
    115, [ShuttingDown] the call of line 148, [Stopped] the return of
    line 156. *)
Inductive SupPc : Type :=
| Starting
| WaitStarted (i : nat)
| Running (i : nat)
| ShuttingDown (i : nat)
| Stopped.

(** [RunServer] after line 29: parked in [wg.Wait()] or returned. *)
Inductive MainPc : Type :=
| MainWaiting
| MainReturned.

(** How the process died: [log.Fatal] (zerolog logs, then [os.Exit(1)]) or
    the uncaught [panic] of line 79. *)
Inductive Exit : Type :=
| ExitFatal
| ExitPanic (e : error).

(** What the program does that can be seen from outside, in order. *)
Inductive Action : Type :=
| SigReceived (sig : Z)
| IntentSent (k : Intent)
| LogLoadFailed (e : error)
| LogMounted (routePrefix : string)
| LogListening (address : string)
| PrintErrChan (e : error)
| LogFatal (e : error)
| LogConfigReload
| LogShutdownStarted
| LogShutdownComplete.

#[global] Instance Action_eq_dec : EqDecision Action.
Proof. solve_decision. Defined.

(** ** The state of the process *)

Record state : Type := mkState {
  configPath : string;
  (* channels and wait group *)
  signals : list Z;
  reloadRequested : nat;
  done : nat;
  wg : nat;
  (* goroutines *)
  main : MainPc;
  sigH : HandlerPc;
  sup : SupPc;
  tasks : list (nat * TaskPc);
  (* locals of runLoop *)
  parentRouter : option ServeMux;
  replaceableHandler : option HandlerRef;
  registeredPrefixes : gset string;
  (* the instances made so far, by iteration *)
  insts : list Inst;
  exit : option Exit;
  trace : list Action
}.

Definition set_signals (x : list Z) (s : state) : state :=
  mkState (configPath s) x (reloadRequested s) (done s) (wg s) (main s)
    (sigH s) (sup s) (tasks s) (parentRouter s) (replaceableHandler s)
    (registeredPrefixes s) (insts s) (exit s) (trace s).

Definition set_reloadRequested (x : nat) (s : state) : state :=
  mkState (configPath s) (signals s) x (done s) (wg s) (main s)
    (sigH s) (sup s) (tasks s) (parentRouter s) (replaceableHandler s)
    (registeredPrefixes s) (insts s) (exit s) (trace s).

Definition set_done (x : nat) (s : state) : state :=
  mkState (configPath s) (signals s) (reloadRequested s) x (wg s) (main s)
    (sigH s) (sup s) (tasks s) (parentRouter s) (replaceableHandler s)
    (registeredPrefixes s) (insts s) (exit s) (trace s).

Definition set_wg (x : nat) (s : state) : state :=
  mkState (configPath s) (signals s) (reloadRequested s) (done s) x (main s)
    (sigH s) (sup s) (tasks s) (parentRouter s) (replaceableHandler s)
    (registeredPrefixes s) (insts s) (exit s) (trace s).

Definition set_main (x : MainPc) (s : state) : state :=
  mkState (configPath s) (signals s) (reloadRequested s) (done s) (wg s) x
    (sigH s) (sup s) (tasks s) (parentRouter s) (replaceableHandler s)
    (registeredPrefixes s) (insts s) (exit s) (trace s).

Definition set_sigH (x : HandlerPc) (s : state) : state :=
  mkState (configPath s) (signals s) (reloadRequested s) (done s) (wg s)
    (main s) x (sup s) (tasks s) (parentRouter s) (replaceableHandler s)
    (registeredPrefixes s) (insts s) (exit s) (trace s).

Definition set_sup (x : SupPc) (s : state) : state :=
  mkState (configPath s) (signals s) (reloadRequested s) (done s) (wg s)
    (main s) (sigH s) x (tasks s) (parentRouter s) (replaceableHandler s)
    (registeredPrefixes s) (insts s) (exit s) (trace s).

Definition set_tasks (x : list (nat * TaskPc)) (s : state) : state :=
  mkState (configPath s) (signals s) (reloadRequested s) (done s) (wg s)
    (main s) (sigH s) (sup s) x (parentRouter s) (replaceableHandler s)
    (registeredPrefixes s) (insts s) (exit s) (trace s).

Definition set_parentRouter (x : option ServeMux) (s : state) : state :=
  mkState (configPath s) (signals s) (reloadRequested s) (done s) (wg s)
    (main s) (sigH s) (sup s) (tasks s) x (replaceableHandler s)
    (registeredPrefixes s) (insts s) (exit s) (trace s).

Definition set_registeredPrefixes (x : gset string) (s : state) : state :=
  mkState (configPath s) (signals s) (reloadRequested s) (done s) (wg s)
    (main s) (sigH s) (sup s) (tasks s) (parentRouter s)
    (replaceableHandler s) x (insts s) (exit s) (trace s).

Definition set_insts (x : list Inst) (s : state) : state :=
  mkState (configPath s) (signals s) (reloadRequested s) (done s) (wg s)
    (main s) (sigH s) (sup s) (tasks s) (parentRouter s)
    (replaceableHandler s) (registeredPrefixes s) x (exit s) (trace s).

Definition set_exit (x : option Exit) (s : state) : state :=
  mkState (configPath s) (signals s) (reloadRequested s) (done s) (wg s)
    (main s) (sigH s) (sup s) (tasks s) (parentRouter s)
    (replaceableHandler s) (registeredPrefixes s) (insts s) x (trace s).

(** Append one action to the trace. *)
Definition emit (a : Action) (s : state) : state :=
  mkState (configPath s) (signals s) (reloadRequested s) (done s) (wg s)
    (main s) (sigH s) (sup s) (tasks s) (parentRouter s)
    (replaceableHandler s) (registeredPrefixes s) (insts s) (exit s)
    (trace s ++ [a]).

(** Field [f] of instance [i], [false] when there is no such instance. *)
Definition flag_at (f : Inst -> bool) (l : list Inst) (i : nat) : bool :=
  match l !! i with
  | Some x => f x
  | None => false
  end.

Definition inst_flag (f : Inst -> bool) (i : nat) (s : state) : bool :=
  flag_at f (insts s) i.

Definition inst_runner (i : nat) (s : state) : Runner :=
  match insts s !! i with
  | Some x => runner x
  | None => NotLaunched
  end.

Definition set_runner (r : Runner) (x : Inst) : Inst :=
  mkInst (cfg x) (runHandler x) r (started x) (shutdownCalled x) (drained x).

Definition set_started (x : Inst) : Inst :=
  mkInst (cfg x) (runHandler x) (runner x) true (shutdownCalled x) (drained x).

Definition set_shutdownCalled (x : Inst) : Inst :=
  mkInst (cfg x) (runHandler x) (runner x) (started x) true (drained x).

Definition set_drained (x : Inst) : Inst :=
  mkInst (cfg x) (runHandler x) (runner x) (started x) (shutdownCalled x) true.

Definition alter_inst (f : Inst -> Inst) (i : nat) (s : state) : state :=
  set_insts (alter f i (insts s)) s.

(** ** signalHandler (lines 37-55) *)

(** [signal.Notify(signals, SIGHUP, SIGINT, SIGTERM)]: only these three
    are relayed. *)
Definition notified (sig : Z) : bool :=
  (sig =? SIGHUP)%Z || (sig =? SIGINT)%Z || (sig =? SIGTERM)%Z.

(** The operating system raises [sig].  Package [os/signal] never blocks
    on the channel it was given: with the capacity-1 buffer of line 38
    full, the signal is lost. *)
Definition os_signal (sig : Z) (s : state) : state :=
  if notified sig && (length (signals s) <? 1)
  then set_signals (signals s ++ [sig]) s
  else s.

(** The [switch] of lines 43-53: which channel, if any, gets a token. *)
Definition switch_sig (sig : Z) : option Intent :=
  if (sig =? SIGHUP)%Z then Some Reload
  else if (sig =? SIGINT)%Z then Some Shutdown
  else if (sig =? SIGTERM)%Z then Some Shutdown
  else None.

(** One move of [signalHandler]: the receive of line 43 followed by the
    switch, or the send of line 46 or 51.  Both sends are plain channel
    sends. *)
Definition signalHandler (s : state) : option state :=
  match sigH s with
  | HRecv =>
      match signals s with
      | [] => None
      | sig :: rest =>
          let s1 := emit (SigReceived sig) (set_signals rest s) in
          match switch_sig sig with
          | Some k => Some (set_sigH (HSend k) s1)
          | None => Some s1
          end
      end
  | HSend Reload =>
      match chan_send 1 (reloadRequested s) with
      | Some n =>
          Some (emit (IntentSent Reload)
                  (set_sigH HRecv (set_reloadRequested n s)))
      | None => None
      end
  | HSend Shutdown =>
      match chan_send 1 (done s) with
      | Some n =>
          Some (emit (IntentSent Shutdown) (set_sigH HRecv (set_done n s)))
      | None => None
      end
  end.

(** ** RunServer (lines 16-35) *)

(** The process once lines 17-29 have run and [runLoop] has executed its
    lines 58-62: both channels empty, the wait group at one, [RunServer]
    parked at line 31. *)
Definition RunServer (router : option ServeMux) (path : string) : state :=
  mkState path [] 0 0 1 MainWaiting HRecv Starting [] router
    (match router with
     | Some _ => Some ReplaceableHandlerPtr
     | None => None
     end)
    ∅ [] None [].

(** [wg.Wait()] returns once the counter is zero; lines 32-35. *)
Definition RunServer_wake (s : state) : option state :=
  match main s with
  | MainWaiting =>
      if wg s =? 0
      then Some (set_main MainReturned (emit LogShutdownComplete s))
      else None
  | MainReturned => None
  end.

(** ** The collaborators *)

(** The started channel of instance [i] fires; it cannot before [serv.Run]
    has been called. *)
Definition inst_started (i : nat) (s : state) : option state :=
  match inst_runner i s with
  | NotLaunched => None
  | _ => Some (alter_inst set_started i s)
  end.

(** [serv.Run] of instance [i] returns [err]; lines 98-101. *)
Definition run_returns (i : nat) (err : option error) (s : state)
  : option state :=
  match inst_runner i s with
  | InRun =>
      Some (alter_inst
              (set_runner (match err with
                           | Some e => Sending e
                           | None => Exited
                           end)) i s)
  | _ => None
  end.

(** Instance [i], told to shut down, has finished draining. *)
Definition inst_drained (i : nat) (s : state) : option state :=
  if inst_flag shutdownCalled i s
  then Some (alter_inst set_drained i s)
  else None.

(** The goroutine of lines 136-141: log, call [serv.Shutdown()], and end
    when the call returns. *)
Definition task_step (k : nat) (s : state) : option state :=
  match tasks s !! k with
  | Some (i, TaskSpawned) =>
      Some (set_tasks (<[k := (i, TaskInShutdown)]> (tasks s))
              (alter_inst set_shutdownCalled i (emit LogConfigReload s)))
  | Some (i, TaskInShutdown) =>
      if inst_flag drained i s
      then Some (set_tasks (<[k := (i, TaskDone)]> (tasks s)) s)
      else None
  | _ => None
  end.

(** ** runLoop (lines 57-159) *)

Section Program.

(** Declared elsewhere in the package; [runLoop] only calls it. *)
Variable routePrefixFromBasePath : string -> result string.

(** Lines 70-73. *)
Definition loadConfig (loadErr : option error) (s : state) : state :=
  match loadErr with
  | Some e => emit (LogLoadFailed e) s
  | None => s
  end.

(** Lines 82-90. *)
Definition mount (routePrefix : string) (mux : ServeMux) (s : state) : state :=
  let h := replaceableHandler s in
  let mux1 := Handle routePrefix h mux in
  let mux2 := if HasSuffix routePrefix "/" then mux1
              else Handle (routePrefix +:+ "/") h mux1 in
  emit (LogMounted routePrefix)
    (set_parentRouter (Some mux2)
       (set_registeredPrefixes ({[routePrefix]} ∪ registeredPrefixes s) s)).

Definition newInst (c : Config) (r : Runner) (s : state) : state :=
  set_insts (insts s ++ [mkInst c (replaceableHandler s) r false false false]) s.

(** Lines 94-102: the runner goroutine is off, the supervisor is at the
    receive of line 105. *)
Definition launch (c : Config) (s : state) : state :=
  set_sup (WaitStarted (length (insts s))) (newInst c InRun s).

(** Lines 66-102, with [loaded] the state of [serv.cfg] after [Load] and
    [loadErr] what [Load] returned. *)
Definition runLoop_iterate (loaded : Config) (loadErr : option error)
    (s : state) : option state :=
  match sup s with
  | Starting =>
      let s1 := loadConfig loadErr s in
      match parentRouter s1 with
      | Some mux =>
          match routePrefixFromBasePath (BasePath loaded) with
          | Err e =>
              Some (set_exit (Some (ExitPanic e)) (newInst loaded NotLaunched s1))
          | Ok routePrefix =>
              if decide (routePrefix ∈ registeredPrefixes s1)
              then Some (launch loaded s1)
              else Some (launch loaded (mount routePrefix mux s1))
          end
      | None => Some (launch loaded s1)
      end
  | _ => None
  end.

(** Lines 105-111. *)
Definition runLoop_started (s : state) : option state :=
  match sup s with
  | WaitStarted i =>
      match insts s !! i with
      | Some x =>
          if started x then
            match parentRouter s with
            | None =>
                Some (set_sup (Running i)
                        (emit (LogListening (ListenAddress (cfg x))) s))
            | Some _ => Some (set_sup (Running i) s)
            end
          else None
      | None => None
      end
  | _ => None
  end.

(** Lines 117-128: the runner's send of line 100 meets this receive. *)
Definition select_errChan (s : state) : option state :=
  match sup s with
  | Running i =>
      match inst_runner i s with
      | Sending err =>
          let s1 := emit (PrintErrChan err) (alter_inst (set_runner Exited) i s) in
          if decide (err ≠ ErrServerClosed)
          then Some (set_exit (Some ExitFatal) (emit (LogFatal err) s1))
          else Some (set_sup Starting s1)
      | _ => None
      end
  | _ => None
  end.

(** Lines 130-142. *)
Definition select_reloadRequested (s : state) : option state :=
  match sup s with
  | Running i =>
      match chan_recv (reloadRequested s) with
      | Some n =>
          Some (set_sup Starting
                  (set_tasks (tasks s ++ [(i, TaskSpawned)])
                     (set_reloadRequested n s)))
      | None => None
      end
  | _ => None
  end.

(** Lines 144-148, up to the call of [serv.Shutdown()]. *)
Definition select_done (s : state) : option state :=
  match sup s with
  | Running i =>
      match chan_recv (done s) with
      | Some n =>
          Some (set_sup (ShuttingDown i)
                  (alter_inst set_shutdownCalled i
                     (emit LogShutdownStarted (set_done n s))))
      | None => None
      end
  | _ => None
  end.

(** Lines 148-150 and 155-156: [serv.Shutdown()] returns, [wg.Done()],
    the loop returns.  [Done] on a zero counter panics. *)
Definition shutdown_returns (s : state) : option state :=
  match sup s with
  | ShuttingDown i =>
      if inst_flag drained i s then
        match wg s with
        | S n => Some (set_sup Stopped (set_wg n s))
        | O =>
            Some (set_exit
                    (Some (ExitPanic (ErrOther "sync: negative WaitGroup counter")))
                    s)
        end
      else None
  | _ => None
  end.

(** ** The transition system *)

Inductive Label : Type :=
| OsSignal (sig : Z)
| HandlerStep
| SupIterate (loaded : Config) (loadErr : option error)
| SupStarted
| SupSelectErr
| SupSelectReload
| SupSelectDone
| SupShutdownReturns
| MainWake
| InstStarted (i : nat)
| RunReturns (i : nat) (err : option error)
| InstDrained (i : nat)
| TaskStep (k : nat).

(** Nothing moves once the process has exited. *)
Definition step (l : Label) (s : state) : option state :=
  match exit s with
  | Some _ => None
  | None =>
      match l with
      | OsSignal sig => Some (os_signal sig s)
      | HandlerStep => signalHandler s
      | SupIterate loaded loadErr => runLoop_iterate loaded loadErr s
      | SupStarted => runLoop_started s
      | SupSelectErr => select_errChan s
      | SupSelectReload => select_reloadRequested s
      | SupSelectDone => select_done s
      | SupShutdownReturns => shutdown_returns s
      | MainWake => RunServer_wake s
      | InstStarted i => inst_started i s
      | RunReturns i err => run_returns i err s
      | InstDrained i => inst_drained i s
      | TaskStep k => task_step k s
      end
  end.

Fixpoint run (ls : list Label) (s : state) : option state :=
  match ls with
  | [] => Some s
  | l :: ls' =>
      match step l s with
      | Some s' => run ls' s'
      | None => None
      end
  end.

(** The states the process can be in after [RunServer router path]. *)
Definition reachable (router : option ServeMux) (path : string) (s : state)
  : Prop :=
  ∃ ls, run ls (RunServer router path) = Some s.

End Program.

(** Modelled from the spec: [routePrefixFromBasePath] is declared outside
    [server.go].  The spec fixes two points of it (base path [/upload]
    gives the prefix [/upload]; the empty base path, which lacks the
    leading separator, is invalid) and says that a prefix may or may not
    end in the separator.  This model keeps a base path that starts with
    the separator as it is and rejects every other one.  It is used for
    concrete runs only; the general statements are over any function. *)
Definition routePrefixFromBasePath_spec (basePath : string) : result string :=
  match basePath with
  | String "/"%char _ => Ok basePath
  | _ => Err (ErrOther "invalid base path")
  end.

(** ** The handler indirection *)

Module HandlerIndirection.

(** Modelled from the spec: the type [ReplaceableHandler] behind the
    pointer of line 60 is declared outside [server.go], which never reads
    or writes its slot.  The spec describes it as a single mutable slot
    holding the current delegate, written only by the supervisor under a
    write lock held for the swap and read concurrently by any number of
    request-handling threads.  Here the slot holds a reference made of two
    words that are stored and loaded one at a time, so that a torn
    reference can be told from a whole one; [swap] takes the lock
    exclusively, stores both words and releases it; [delegate] takes the
    lock shared, loads both words, releases it and forwards to what it
    loaded.  The lock has no state of its own: the supervisor holds it
    from [SwapLock] to [SwapUnlock], a thread holds it shared from
    [CallLock] to [CallUnlock], and each side waits for the other. *)

Definition Delegate : Type := nat.

Definition Ref : Type := option Delegate * option Delegate.

Definition null : Ref := (None, None).

Definition ref_of (d : Delegate) : Ref := (Some d, Some d).

(** The supervisor inside [swap d]. *)
Inductive SwapPc : Type :=
| SwapIdle
| SwapLocked (d : Delegate)
| SwapHalf (d : Delegate)
| SwapStored (d : Delegate).

(** A request-handling thread inside [delegate]; [k0] is the number of
    swaps that had completed when the call began. *)
Inductive CallPc : Type :=
| CallIdle
| CallWaiting (k0 : nat)
| CallLocked (k0 : nat)
| CallHalf (k0 : nat) (w1 : option Delegate)
| CallLoaded (k0 : nat) (r : Ref).

(** The thread holds the lock shared. *)
Definition holding (pc : CallPc) : bool :=
  match pc with
  | CallIdle | CallWaiting _ => false
  | CallLocked _ | CallHalf _ _ | CallLoaded _ _ => true
  end.

(** One finished delegation: swaps completed when it began, the reference
    it forwarded to, swaps completed when it forwarded. *)
Record Observation : Type := mkObs {
  began : nat;
  target : Ref;
  ended : nat
}.

Record slot_state : Type := mkSlot {
  slot : Ref;
  swapper : SwapPc;
  callers : list CallPc;
  swaps : list Delegate;
  observed : list Observation
}.

(** A fresh indirection with [n] request-handling threads. *)
Definition init (n : nat) : slot_state :=
  mkSlot null SwapIdle (replicate n CallIdle) [] [].

(** The reference in force once [k] swaps have completed. *)
Definition installed (sw : list Delegate) (k : nat) : Ref :=
  match k with
  | O => null
  | S j =>
      match sw !! j with
      | Some d => ref_of d
      | None => null
      end
  end.

Inductive Op : Type :=
| SwapLock (d : Delegate)
| SwapStore
| SwapUnlock
| CallBegin (t : nat)
| CallLock (t : nat)
| CallLoad (t : nat)
| CallUnlock (t : nat).

Definition set_caller (t : nat) (pc : CallPc) (s : slot_state) : slot_state :=
  mkSlot (slot s) (swapper s) (<[t := pc]> (callers s)) (swaps s) (observed s).

Definition set_swapper (pc : SwapPc) (s : slot_state) : slot_state :=
  mkSlot (slot s) pc (callers s) (swaps s) (observed s).

Definition set_slot (r : Ref) (s : slot_state) : slot_state :=
  mkSlot r (swapper s) (callers s) (swaps s) (observed s).

Definition swap_step (o : Op) (s : slot_state) : option slot_state :=
  match o, swapper s with
  | SwapLock d, SwapIdle =>
      if forallb (λ pc, negb (holding pc)) (callers s)
      then Some (set_swapper (SwapLocked d) s)
      else None
  | SwapStore, SwapLocked d =>
      Some (set_swapper (SwapHalf d) (set_slot (Some d, snd (slot s)) s))
  | SwapStore, SwapHalf d =>
      Some (set_swapper (SwapStored d) (set_slot (fst (slot s), Some d) s))
  | SwapUnlock, SwapStored d =>
      Some (mkSlot (slot s) SwapIdle (callers s) (swaps s ++ [d]) (observed s))
  | _, _ => None
  end.

Definition call_step (o : Op) (s : slot_state) : option slot_state :=
  match o with
  | CallBegin t =>
      match callers s !! t with
      | Some CallIdle => Some (set_caller t (CallWaiting (length (swaps s))) s)
      | _ => None
      end
  | CallLock t =>
      match callers s !! t, swapper s with
      | Some (CallWaiting k0), SwapIdle => Some (set_caller t (CallLocked k0) s)
      | _, _ => None
      end
  | CallLoad t =>
      match callers s !! t with
      | Some (CallLocked k0) =>
          Some (set_caller t (CallHalf k0 (fst (slot s))) s)
      | Some (CallHalf k0 w1) =>
          Some (set_caller t (CallLoaded k0 (w1, snd (slot s))) s)
      | _ => None
      end
  | CallUnlock t =>
      match callers s !! t with
      | Some (CallLoaded k0 r) =>
          Some (mkSlot (slot s) (swapper s) (<[t := CallIdle]> (callers s))
                  (swaps s)
                  (observed s ++ [mkObs k0 r (length (swaps s))]))
      | _ => None
      end
  | _ => None
  end.

Definition step (o : Op) (s : slot_state) : option slot_state :=
  match o with
  | SwapLock _ | SwapStore | SwapUnlock => swap_step o s
  | _ => call_step o s
  end.

(** An interleaving is the list of the moves in the order they happen. *)
Fixpoint run (os : list Op) (s : slot_state) : option slot_state :=
  match os with
  | [] => Some s
  | o :: os' =>
      match step o s with
      | Some s' => run os' s'
      | None => None
      end
  end.

(** What the lock discipline keeps true; see [run_ok]. *)
Record ok (s : slot_state) : Prop := mkOk {
  ok_excl : swapper s ≠ SwapIdle →
            ∀ t pc, callers s !! t = Some pc → holding pc = false;
  ok_slot : swapper s = SwapIdle →
            slot s = installed (swaps s) (length (swaps s));
  ok_store : match swapper s with
             | SwapHalf d => fst (slot s) = Some d
             | SwapStored d => slot s = ref_of d
             | _ => True
             end;
  ok_load : ∀ t pc, callers s !! t = Some pc →
            match pc with
            | CallIdle => True
            | CallWaiting k0 | CallLocked k0 => k0 ≤ length (swaps s)
            | CallHalf k0 w1 => k0 ≤ length (swaps s) ∧ w1 = fst (slot s)
            | CallLoaded k0 r => k0 ≤ length (swaps s) ∧ r = slot s
            end;
  ok_obs : ∀ o, o ∈ observed s →
           began o ≤ ended o ∧ ended o ≤ length (swaps s) ∧
           target o = installed (swaps s) (ended o)
}.

End HandlerIndirection.

(** ** Reading a state *)

(** The channel an intent travels on. *)
Definition chan (k : Intent) (s : state) : nat :=
  match k with
  | Reload => reloadRequested s
  | Shutdown => done s
  end.

(** The instance the supervisor is busy with, if any. *)
Definition current (s : state) : option nat :=
  match sup s with
  | WaitStarted i | Running i | ShuttingDown i => Some i
  | Starting | Stopped => None
  end.

(** The signals [signalHandler] has taken off its channel and the intents
    it has handed over, read off a trace; [pending] is the intent it is
    in the middle of sending. *)
Definition received_of (a : Action) : option Z :=
  match a with
  | SigReceived sig => Some sig
  | _ => None
  end.

Definition sent_of (a : Action) : option Intent :=
  match a with
  | IntentSent k => Some k
  | _ => None
  end.

Definition pending (pc : HandlerPc) : list Intent :=
  match pc with
  | HSend k => [k]
  | HRecv => []
  end.

(** How many times the block of lines 82-90 has run for [routePrefix]. *)
Definition mounts (routePrefix : string) (s : state) : nat :=
  length (filter (λ a, a = LogMounted routePrefix) (trace s)).

(** The prefixes for which the block of lines 82-90 has run, in order, and
    the [Handle] calls that block makes for one prefix. *)
Definition mounted_of (a : Action) : option string :=
  match a with
  | LogMounted routePrefix => Some routePrefix
  | _ => None
  end.

Definition handlers_for (h : option HandlerRef) (routePrefix : string)
  : ServeMux :=
  (routePrefix, h)
    :: (if HasSuffix routePrefix "/" then [] else [(routePrefix +:+ "/", h)]).


(** What a move added to the trace. *)
Definition emitted (s s' : state) : list Action :=
  drop (length (trace s)) (trace s').

(** How many [Handle] calls the parent router has received for [pattern]. *)
Definition registrations (pattern : string) (s : state) : nat :=
  match parentRouter s with
  | Some mux => length (filter (λ r, String.eqb (fst r) pattern = true) mux)
  | None => 0
  end.

(** What holds of every state of a run; see [reachable_Inv]. *)
Record Inv (s : state) : Prop := mkInv {
  inv_wg : wg s = match sup s with Stopped => 0 | _ => 1 end;
  inv_main : main s = MainReturned → sup s = Stopped;
  inv_current : ∀ i, current s = Some i → S i = length (insts s);
  inv_tasks :
    ∀ k j pc, tasks s !! k = Some (j, pc) →
      j < length (insts s) ∧ ∀ i, current s = Some i → j < i;
  inv_live :
    ∀ i, sup s = WaitStarted i ∨ sup s = Running i →
      inst_flag shutdownCalled i s = false ∧ inst_flag drained i s = false
}.

(** The runner of the [i]-th instance of a list, [NotLaunched] when there
    is none; [inst_runner i s] is [runner_at (insts s) i]. *)
Definition runner_at (l : list Inst) (i : nat) : Runner :=
  match l !! i with
  | Some x => runner x
  | None => NotLaunched
  end.


(** ** Counting on traces *)

(** How many times [a] has happened. *)
Definition occurrences (a : Action) (s : state) : nat :=
  length (filter (λ x, x = a) (trace s)).

(** How many intents of kind [k] [signalHandler] has handed over. *)
Definition sent (k : Intent) (s : state) : nat :=
  length (filter (λ x, x = k) (omap sent_of (trace s))).

(** How many times the select has returned [true]: once per reload goroutine
    spawned (line 142) and once per [http.ErrServerClosed] received (line
    128). *)
Definition restarts (s : state) : nat :=
  length (tasks s) + occurrences (PrintErrChan ErrServerClosed) s.

(** The addresses of the "Server listening" lines, and the errors of the
    [log.Fatal] lines. *)
Definition listening_of (a : Action) : option string :=
  match a with
  | LogListening address => Some address
  | _ => None
  end.

Definition fatal_of (a : Action) : option error :=
  match a with
  | LogFatal e => Some e
  | _ => None
  end.

(** How many instances the supervisor has seen start (line 105 passed). *)
Definition passed (s : state) : nat :=
  match sup s with
  | WaitStarted _ => pred (length (insts s))
  | _ => length (insts s)
  end.

(** The handler [RunServer router] hands to every [serv.Run]. *)
Definition handler_for (router : option ServeMux) : option HandlerRef :=
  match router with
  | Some _ => Some ReplaceableHandlerPtr
  | None => None
  end.


(** ** Sample runs *)

(** The state after the moves [ls], or [s] itself if one of them is not
    enabled. *)
Definition after (rp : string -> result string) (ls : list Label) (s : state)
  : state :=
  default s (run rp ls s).

Definition sample_path : string := "fileuploader.config.json".

Definition sample_config : Config := mkConfig "/upload" ":8088".

(** Up and serving: one iteration, the instance has started. *)
Definition boot : list Label :=
  [SupIterate sample_config None; InstStarted 0; SupStarted].

(** Standalone, serving, a [SIGTERM] translated and delivered. *)
Definition sample_done_pending : state :=
  after routePrefixFromBasePath_spec
    (boot ++ [OsSignal SIGTERM; HandlerStep; HandlerStep])
    (RunServer None sample_path).

(** Behind a parent router, serving, a [SIGHUP] translated and delivered. *)
Definition sample_reload_pending : state :=
  after routePrefixFromBasePath_spec
    (boot ++ [OsSignal SIGHUP; HandlerStep; HandlerStep])
    (RunServer (Some []) sample_path).

(** Serving, [serv.Run] has returned [e] and the runner is at line 100. *)
Definition sample_failed (e : error) : state :=
  after routePrefixFromBasePath_spec
    (boot ++ [RunReturns 0 (Some e)])
    (RunServer None sample_path).

(** Two [SIGHUP]s before the supervisor reaches its select: the first is
    in the channel, [signalHandler] is at the send of the second. *)
Definition sample_second_reload : state :=
  after routePrefixFromBasePath_spec
    [SupIterate sample_config None;
     OsSignal SIGHUP; HandlerStep; HandlerStep; OsSignal SIGHUP; HandlerStep]
    (RunServer None sample_path).

(** One [SIGHUP] received, not yet sent on. *)
Definition sample_first_reload : state :=
  after routePrefixFromBasePath_spec
    [SupIterate sample_config None; OsSignal SIGHUP; HandlerStep]
    (RunServer None sample_path).

(** Standalone, the instance launched and started, line 105 not yet
    passed. *)
Definition sample_wait_started : state :=
  after routePrefixFromBasePath_spec
    [SupIterate sample_config None; InstStarted 0]
    (RunServer None sample_path).

(** Instance [i] starts and serves, a [SIGHUP] arrives and is acted on,
    the next iteration loads the same configuration. *)
Definition reload_cycle (i : nat) : list Label :=
  [InstStarted i; SupStarted; OsSignal SIGHUP; HandlerStep; HandlerStep;
   SupSelectReload; SupIterate sample_config None].

(** Behind a parent router, base path [/upload], three reloads. *)
Definition sample_three_reloads : state :=
  after routePrefixFromBasePath_spec
    (SupIterate sample_config None
       :: reload_cycle 0 ++ reload_cycle 1 ++ reload_cycle 2)
    (RunServer (Some []) sample_path).


(** Base path [/a], a reload, then base path [/a/]. *)
Definition alias_run : list Label :=
  [SupIterate (mkConfig "/a" ":8088") None; InstStarted 0; SupStarted;
   OsSignal SIGHUP; HandlerStep; HandlerStep; SupSelectReload;
   SupIterate (mkConfig "/a/" ":8088") None].


(** Standalone: a [SIGTERM] acted on, [serv.Run] back with
    [http.ErrServerClosed], the instance drained; [Shutdown] is about to
    return. *)
Definition shutdown_run : list Label :=
  boot ++ [OsSignal SIGTERM; HandlerStep; HandlerStep; SupSelectDone;
           RunReturns 0 (Some ErrServerClosed); InstDrained 0].

Definition sample_shutting_down : state :=
  after routePrefixFromBasePath_spec shutdown_run (RunServer None sample_path).

(** The same run to its end: [Shutdown] is back and [RunServer] has
    returned. *)
Definition sample_stopped : state :=
  after routePrefixFromBasePath_spec
    (shutdown_run ++ [SupShutdownReturns; MainWake])
    (RunServer None sample_path).

(** Standalone, the [done] case taken, [Shutdown] not yet back. *)
Definition sample_shutdown_called : state :=
  after routePrefixFromBasePath_spec [SupSelectDone] sample_done_pending.

(** Standalone, a bind error received by the select. *)
Definition fatal_run : list Label :=
  boot ++ [RunReturns 0 (Some (ErrOther "bind: address already in use"));
           SupSelectErr].

Definition sample_fatal : state :=
  after routePrefixFromBasePath_spec fatal_run (RunServer None sample_path).

(** Standalone, a reload acted on and the old instance told to shut down:
    its [serv.Run] has returned [http.ErrServerClosed], after the
    supervisor has left the select. *)
Definition stale_run : list Label :=
  boot ++ [OsSignal SIGHUP; HandlerStep; HandlerStep; SupSelectReload;
           TaskStep 0; RunReturns 0 (Some ErrServerClosed)].

Definition sample_stale_runner : state :=
  after routePrefixFromBasePath_spec stale_run (RunServer None sample_path).

(** What follows: the next instance comes up and serves, the old one
    drains, the reload goroutine ends. *)
Definition stale_rest : list Label :=
  [SupIterate sample_config None; InstStarted 1; SupStarted; InstDrained 0;
   TaskStep 0].

Definition sample_stale_later : state :=
  after routePrefixFromBasePath_spec stale_rest sample_stale_runner.

(** Standalone, the first instance launched, its started channel silent
    while a [SIGTERM] is translated, [serv.Run] fails and a [SIGHUP]
    arrives. *)
Definition sample_launched : state :=
  after routePrefixFromBasePath_spec [SupIterate sample_config None]
    (RunServer None sample_path).

Definition launched_rest : list Label :=
  [OsSignal SIGTERM; HandlerStep; HandlerStep;
   RunReturns 0 (Some (ErrOther "bind: address already in use"));
   OsSignal SIGHUP].

Definition sample_launched_later : state :=
  after routePrefixFromBasePath_spec launched_rest sample_launched.

(** Behind a parent router, what follows a delivered [SIGHUP]: the reload
    is acted on, the next iteration loads another configuration, the
    reload goroutine calls [Shutdown] on the first instance. *)
Definition reload_rest : list Label :=
  [SupSelectReload; SupIterate (mkConfig "/files" ":9090") None; TaskStep 0].

Definition sample_reloaded : state :=
  after routePrefixFromBasePath_spec reload_rest sample_reload_pending.

(** Standalone, a reload onto another listen address, the second instance
    serving. *)
Definition standalone_reload_run : list Label :=
  boot ++ [OsSignal SIGHUP; HandlerStep; HandlerStep; SupSelectReload;
           SupIterate (mkConfig "/upload" ":9090") None; InstStarted 1;
           SupStarted].

Definition sample_standalone_reloaded : state :=
  after routePrefixFromBasePath_spec standalone_reload_run
    (RunServer None sample_path).

(** Behind a parent router, base path [/a], then [/a/]. *)
Definition sample_alias : state :=
  after routePrefixFromBasePath_spec alias_run (RunServer (Some []) sample_path).



(** * Properties of the supervisor *)

Section Supervisor.

Variable rp : string -> result string.

Ltac unfold_moves :=
  unfold step, os_signal, signalHandler, runLoop_iterate, runLoop_started,
    select_errChan, select_reloadRequested, select_done, shutdown_returns,
    RunServer_wake, inst_started, run_returns, inst_drained, task_step,
    launch, newInst, mount, loadConfig, chan_send, chan_recv in *.

Ltac simpl_state :=
  cbn [configPath signals reloadRequested done wg main sigH sup tasks
       parentRouter replaceableHandler registeredPrefixes insts exit trace
       alter_inst emit set_signals set_reloadRequested set_done set_wg
       set_main set_sigH set_sup set_tasks set_parentRouter
       set_registeredPrefixes set_insts set_exit] in *.

(** Split an enabled move into the paths of the code it can take. *)
Ltac step_paths :=
  unfold_moves; repeat case_match; simplify_eq; simpl_state.

(** [run] along a concatenation. *)
Lemma run_app (ls1 ls2 : list Label) (s : state) :
  run rp (ls1 ++ ls2) s =
  match run rp ls1 s with
  | Some s1 => run rp ls2 s1
  | None => None
  end.
Proof.
  revert s. induction ls1 as [|l ls1 IH]; intros s; simpl; [reflexivity|].
  destruct (step rp l s); [apply IH | reflexivity].
Qed.

(** A property kept by every move holds along every run. *)
Lemma run_preserves (P : state -> Prop) :
  (∀ l s s', P s → step rp l s = Some s' → P s') →
  ∀ ls s s', P s → run rp ls s = Some s' → P s'.
Proof.
  intros Hstep ls. induction ls as [|l ls IH]; intros s s' HP Hrun; simpl in Hrun.
  - congruence.
  - destruct (step rp l s) as [s1|] eqn:E; [|discriminate].
    eapply IH; [|exact Hrun]. eapply Hstep; eauto.
Qed.

Lemma reachable_run router path ls s s' :
  reachable rp router path s → run rp ls s = Some s' →
  reachable rp router path s'.
Proof.
  intros [ls0 Hls] Hs. exists (ls0 ++ ls). rewrite run_app, Hls. exact Hs.
Qed.

Lemma reachable_step router path l s s' :
  reachable rp router path s → step rp l s = Some s' →
  reachable rp router path s'.
Proof.
  intros Hr Hs. apply (reachable_run router path [l] s s' Hr).
  simpl. rewrite Hs. reflexivity.
Qed.

(** The only move that touches the wait group is the return from the
    synchronous [Shutdown] of line 148. *)
Lemma step_wg l s s' :
  step rp l s = Some s' →
  wg s' = wg s ∨
  (l = SupShutdownReturns ∧
   ∃ i, sup s = ShuttingDown i ∧ inst_flag drained i s = true ∧
        sup s' = Stopped ∧ S (wg s') = wg s).
Proof.
  intros H. destruct l; step_paths; try (left; congruence).
  right. split; [reflexivity|]. exists i. auto.
Qed.

(** Flags of instances under the two ways [insts] changes. *)
Lemma flag_at_alter_ne g f l i j :
  i ≠ j → flag_at g (alter f j l) i = flag_at g l i.
Proof.
  intros Hne. unfold flag_at. rewrite list_lookup_alter_ne by congruence.
  reflexivity.
Qed.

Lemma flag_at_alter_same g f l i j :
  (∀ x, g (f x) = g x) → flag_at g (alter f j l) i = flag_at g l i.
Proof.
  intros Hf. unfold flag_at. rewrite list_lookup_alter. case_decide; subst.
  - destruct (l !! i); simpl; auto.
  - reflexivity.
Qed.

Lemma flag_at_alter_set g f l i :
  (∀ x, g (f x) = true) → i < length l → flag_at g (alter f i l) i = true.
Proof.
  intros Hf Hi. unfold flag_at. rewrite list_lookup_alter_eq.
  destruct (lookup_lt_is_Some_2 l i Hi) as [x ->]. simpl. apply Hf.
Qed.

Lemma flag_at_snoc g l x i :
  g x = false → flag_at g (l ++ [x]) i = flag_at g l i.
Proof.
  intros Hx. unfold flag_at. rewrite lookup_app.
  destruct (l !! i) eqn:E; [reflexivity|].
  destruct (i - length l); simpl; auto.
Qed.

Ltac simpl_flags :=
  unfold inst_flag in *; simpl_state;
  rewrite ?flag_at_snoc by reflexivity;
  rewrite ?(flag_at_alter_same drained) by (intros []; reflexivity);
  rewrite ?(flag_at_alter_same shutdownCalled) by (intros []; reflexivity);
  rewrite ?(flag_at_alter_same started) by (intros []; reflexivity).

Lemma flag_at_alter_mono g f l i j :
  (∀ x, g x = true → g (f x) = true) →
  flag_at g l i = true → flag_at g (alter f j l) i = true.
Proof.
  intros Hf. unfold flag_at. rewrite list_lookup_alter. case_decide; subst.
  - destruct (l !! i); simpl; auto.
  - auto.
Qed.

Lemma flag_at_ge g l i : length l ≤ i → flag_at g l i = false.
Proof.
  intros Hi. unfold flag_at. rewrite (lookup_ge_None_2 l i Hi). reflexivity.
Qed.

Ltac inv_auto :=
  intros; simplify_eq;
  repeat match goal with
         | H : _ ∨ _ |- _ => destruct H; simplify_eq
         | H : tasks _ !! _ = Some _,
           I : ∀ k j pc, tasks _ !! k = Some (j, pc) → _ |- _ =>
             destruct (I _ _ _ H); revert H
         | H : (_ ++ [_]) !! _ = Some _ |- _ =>
             apply lookup_snoc_Some in H; destruct H as [[? ?]|[? ?]]; simplify_eq
         | H : <[_ := _]> _ !! _ = Some _ |- _ =>
             apply list_lookup_insert_Some in H;
             destruct H as [(? & ? & ?)|[? ?]]; simplify_eq
         end;
  intros;
  rewrite ?length_app, ?length_alter; simpl length;
  simpl_flags.

Lemma Inv_step l s s' : Inv s → step rp l s = Some s' → Inv s'.
Proof.
  intros HI H. destruct l; step_paths.
  all: destruct HI as [I1 I2 I3 I5 I6]; split; unfold current in *; simpl_state.
  all: try match goal with H : sup _ = _ |- _ => rewrite H in * end.
  all: try (intros; congruence).
  all: try assumption.
  all: try lia.
  all: inv_auto.
  all: try assumption.
  all: try lia.
  all: try (intros; congruence).
  all: try (split; [lia | intros; simplify_eq; lia]).
  all: try (split; apply flag_at_ge; lia).
  all: try (apply I6; auto; fail).
  all: try (specialize (I3 _ eq_refl); lia).
  all: try (split; assumption).
  all: try (exfalso; match goal with
                     | I : main _ = MainReturned → _, H : main _ = MainReturned |- _ =>
                         specialize (I H); congruence
                     end).
  all: try (apply I3; assumption).
  - specialize (I3 _ eq_refl). split; [lia | intros; congruence].
  - rewrite I1 in *. destruct (sup s); first [reflexivity | discriminate].
  - destruct (I6 i0 (or_introl H)) as [Hc Hd]. split; [exact Hc|].
    rewrite flag_at_alter_ne by congruence. exact Hd.
  - destruct (I6 i0 (or_intror H)) as [Hc Hd]. split; [exact Hc|].
    rewrite flag_at_alter_ne by congruence. exact Hd.
  - rewrite H in H3. specialize (H3 _ eq_refl).
    rewrite flag_at_alter_ne by lia. apply I6. auto.
  - rewrite H in H3. specialize (H3 _ eq_refl).
    rewrite flag_at_alter_ne by lia. apply I6. auto.
Qed.

Lemma Inv_init router path : Inv (RunServer router path).
Proof.
  split; simpl; try congruence.
  - intros i Hi. discriminate Hi.
  - intros k j pc Hk. rewrite lookup_nil in Hk. discriminate.
  - intros i [H|H]; discriminate.
Qed.

Lemma reachable_Inv router path s : reachable rp router path s → Inv s.
Proof.
  intros [ls Hls]. eapply run_preserves; [apply Inv_step | apply Inv_init | exact Hls].
Qed.



(** The supervisor enters the call of line 148 only from the select, on a
    token of [done]. *)
Lemma step_enter_shutdown l s s' j :
  step rp l s = Some s' → sup s' = ShuttingDown j →
  sup s = ShuttingDown j ∨
  (l = SupSelectDone ∧ sup s = Running j ∧ done s ≠ 0).
Proof.
  intros H Hs'. destruct l; step_paths; try congruence; auto.
  - right. split; [reflexivity|]. split; [congruence | lia].
  - left. congruence.
Qed.

(** Once inside the call of line 148 the supervisor stays there, the wait
    group held, until instance [i] has drained; then it is [Stopped] for
    good.  No instance is made and the process does not die. *)
Lemma after_done_step i n l s s' :
  step rp l s = Some s' →
  exit s = None ∧ length (insts s) = n ∧
  ((sup s = ShuttingDown i ∧ wg s = 1 ∧ main s = MainWaiting) ∨
   (sup s = Stopped ∧ wg s = 0 ∧ inst_flag drained i s = true)) →
  exit s' = None ∧ length (insts s') = n ∧
  ((sup s' = ShuttingDown i ∧ wg s' = 1 ∧ main s' = MainWaiting) ∨
   (sup s' = Stopped ∧ wg s' = 0 ∧ inst_flag drained i s' = true)).
Proof.
  intros H (He & Hn & Hq). destruct l; step_paths.
  all: destruct Hq as [(Hs & Hw & Hm)|(Hs & Hw & Hd)]; simplify_eq.
  all: rewrite ?length_alter; simpl_flags.
  all: try (split; [assumption|]; split; [reflexivity|]; auto; fail).
  - rewrite Hw in *. discriminate.
  - split; [assumption|]. split; [reflexivity|]. right.
    repeat split; try assumption.
    apply flag_at_alter_mono; [intros []; auto | assumption].
Qed.

Lemma after_done_run i n ls s s' :
  run rp ls s = Some s' →
  exit s = None ∧ length (insts s) = n ∧
  ((sup s = ShuttingDown i ∧ wg s = 1 ∧ main s = MainWaiting) ∨
   (sup s = Stopped ∧ wg s = 0 ∧ inst_flag drained i s = true)) →
  exit s' = None ∧ length (insts s') = n ∧
  ((sup s' = ShuttingDown i ∧ wg s' = 1 ∧ main s' = MainWaiting) ∨
   (sup s' = Stopped ∧ wg s' = 0 ∧ inst_flag drained i s' = true)).
Proof.
  intros Hrun HQ. revert Hrun. revert HQ. revert s'. revert s.
  induction ls as [|l ls IH]; intros s s' HQ Hrun; simpl in Hrun.
  - congruence.
  - destruct (step rp l s) as [s1|] eqn:E; [|discriminate].
    apply (IH s1 s'); [|exact Hrun]. eapply after_done_step; eauto.
Qed.


(** C1. In [Running], a token on [done] makes the supervisor call
    [Shutdown] on the current instance and wait inside the call: until the
    instance has drained it stays there with the wait group held; once it
    has drained the call returns, the wait group is released, the loop is
    left for good and no further instance is made.  No other move of the
    program touches the wait group, the call of line 148 is entered only
    through the [done] case, and [RunServer] has returned only in states
    where the supervisor is [Stopped]. *)
Theorem shutdown_intent_stops_supervisor router path s i :
  reachable rp router path s → exit s = None →
  sup s = Running i → done s ≠ 0 →
  ∃ s1,
    step rp SupSelectDone s = Some s1 ∧
    sup s1 = ShuttingDown i ∧
    inst_flag shutdownCalled i s1 = true ∧
    trace s1 = trace s ++ [LogShutdownStarted] ∧
    (∀ ls s2, run rp ls s1 = Some s2 →
       exit s2 = None ∧ length (insts s2) = length (insts s) ∧
       ((sup s2 = ShuttingDown i ∧ wg s2 = 1 ∧ main s2 = MainWaiting) ∨
        (sup s2 = Stopped ∧ wg s2 = 0 ∧ inst_flag drained i s2 = true)) ∧
       (sup s2 = ShuttingDown i → inst_flag drained i s2 = true →
        ∃ s3 s4,
          step rp SupShutdownReturns s2 = Some s3 ∧
          sup s3 = Stopped ∧ wg s3 = 0 ∧
          step rp MainWake s3 = Some s4 ∧ main s4 = MainReturned)) ∧
    (∀ l t t', step rp l t = Some t' → wg t' ≠ wg t →
       l = SupShutdownReturns ∧
       ∃ j, sup t = ShuttingDown j ∧ inst_flag drained j t = true ∧
            sup t' = Stopped) ∧
    (∀ l t t' j, step rp l t = Some t' → sup t' = ShuttingDown j →
       sup t = ShuttingDown j ∨
       (l = SupSelectDone ∧ sup t = Running j ∧ done t ≠ 0)) ∧
    (∀ t, reachable rp router path t → main t = MainReturned →
       sup t = Stopped ∧ wg t = 0).
Proof.
  intros Hr He Hs Hd.
  pose proof (reachable_Inv _ _ _ Hr) as [I1 I2 I3 I5 I6].
  rewrite Hs in I1. specialize (I3 i). unfold current in I3. rewrite Hs in I3.
  specialize (I3 eq_refl).
  assert (Hm : main s = MainWaiting).
  { destruct (main s) eqn:E; [reflexivity|]. specialize (I2 eq_refl). congruence. }
  destruct (done s) as [|n] eqn:En; [congruence|].
  eexists. split.
  { unfold step, select_done. rewrite He, Hs. unfold chan_recv. rewrite En.
    reflexivity. }
  simpl_state. split; [reflexivity|]. split.
  { unfold inst_flag. simpl_state. apply flag_at_alter_set; [reflexivity | lia]. }
  split; [reflexivity|]. split; [|split; [|split]].
  - intros ls s2 Hrun.
    pose proof (after_done_run i (length (insts s)) ls _ s2 Hrun) as HQ.
    destruct HQ as (He2 & Hn2 & Hq2).
    { simpl_state. rewrite length_alter. split; [assumption|].
      split; [reflexivity|]. left. auto. }
    split; [assumption|]. split; [assumption|]. split; [assumption|].
    intros Hs2 Hd2. destruct Hq2 as [(_ & Hw2 & Hm2)|(Hc & _)]; [|congruence].
    eexists. eexists. split.
    { unfold step, shutdown_returns. rewrite He2, Hs2, Hd2, Hw2. reflexivity. }
    simpl_state. split; [reflexivity|]. split; [reflexivity|]. split.
    { unfold step, RunServer_wake. simpl_state. rewrite He2, Hm2. reflexivity. }
    reflexivity.
  - intros l t t' Hstep Hwg. destruct (step_wg l t t' Hstep) as [Heq|(Hl & j & H1 & H2 & H3 & _)].
    + congruence.
    + split; [assumption|]. exists j. auto.
  - intros l t t' j. apply step_enter_shutdown.
  - intros t Ht Hmt. pose proof (reachable_Inv _ _ _ Ht) as [J1 J2 _ _ _].
    specialize (J2 Hmt). rewrite J2 in J1. auto.
Qed.

(** The instance made by an iteration is the last of [insts]. *)
Lemma runner_snoc l x :
  match (l ++ [x]) !! length l with
  | Some y => runner y
  | None => NotLaunched
  end = runner x.
Proof.
  rewrite lookup_app_r by lia. rewrite Nat.sub_diag. reflexivity.
Qed.

(** C2. In [Running], a token on [reloadRequested] makes the supervisor
    hand the old instance's [Shutdown] to a goroutine of its own and go
    straight back to [Starting]: at that point [Shutdown] has not even been
    called on the old instance, let alone returned, and the next iteration
    can run at once, launching the replacement while the old instance is
    still undrained.  The detached goroutine logs and calls [Shutdown]
    without the supervisor moving. *)
Theorem reload_intent_restarts_without_waiting router path s i :
  reachable rp router path s → exit s = None →
  sup s = Running i → reloadRequested s ≠ 0 →
  ∃ s1,
    step rp SupSelectReload s = Some s1 ∧
    sup s1 = Starting ∧
    tasks s1 = tasks s ++ [(i, TaskSpawned)] ∧
    insts s1 = insts s ∧ trace s1 = trace s ∧
    inst_flag shutdownCalled i s1 = false ∧
    inst_flag drained i s1 = false ∧
    (∀ loaded loadErr, ∃ s2,
       step rp (SupIterate loaded loadErr) s1 = Some s2 ∧
       inst_flag shutdownCalled i s2 = false ∧
       inst_flag drained i s2 = false ∧
       (exit s2 = None →
        sup s2 = WaitStarted (S i) ∧ inst_runner (S i) s2 = InRun)) ∧
    (∃ s3,
       step rp (TaskStep (length (tasks s))) s1 = Some s3 ∧
       sup s3 = Starting ∧
       trace s3 = trace s ++ [LogConfigReload] ∧
       inst_flag shutdownCalled i s3 = true ∧
       inst_flag drained i s3 = false).
Proof.
  intros Hr He Hs Hd.
  pose proof (reachable_Inv _ _ _ Hr) as [I1 I2 I3 I5 I6].
  specialize (I3 i). unfold current in I3. rewrite Hs in I3.
  specialize (I3 eq_refl).
  destruct (I6 i (or_intror Hs)) as [Hc Hdr]. unfold inst_flag in Hc, Hdr.
  destruct (reloadRequested s) as [|n] eqn:En; [congruence|].
  eexists. split.
  { unfold step, select_reloadRequested. rewrite He, Hs. unfold chan_recv.
    rewrite En. reflexivity. }
  unfold inst_flag. simpl_state.
  repeat (split; [first [reflexivity | assumption]|]). split.
  - intros loaded loadErr. unfold step, runLoop_iterate, loadConfig.
    simpl_state. rewrite He.
    destruct loadErr; simpl_state;
      (destruct (parentRouter s); [destruct (rp _); [case_decide|]|]);
      eexists; (split; [reflexivity|]);
      unfold launch, newInst, mount, inst_runner; simpl_state;
      rewrite !flag_at_snoc by reflexivity;
      (repeat (split; [assumption|])); try discriminate;
      intros _; rewrite I3; (split; [reflexivity | apply runner_snoc]).
  - eexists. split.
    { unfold step, task_step. simpl_state. rewrite He.
      rewrite lookup_app_r by lia. rewrite Nat.sub_diag. simpl. reflexivity. }
    unfold inst_flag. simpl_state. split; [reflexivity|]. split; [reflexivity|].
    split.
    + apply flag_at_alter_set; [reflexivity | lia].
    + rewrite flag_at_alter_same by (intros []; reflexivity). assumption.
Qed.

(** A dead process makes no move. *)
Lemma step_exited l s x : exit s = Some x → step rp l s = None.
Proof. intros H. unfold step. rewrite H. reflexivity. Qed.

(** From [Starting] an iteration can always run. *)
Lemma iterate_enabled loaded loadErr s :
  exit s = None → sup s = Starting →
  is_Some (step rp (SupIterate loaded loadErr) s).
Proof.
  intros He Hs. unfold step, runLoop_iterate. rewrite He, Hs.
  destruct (parentRouter (loadConfig loadErr s)); [|eauto].
  destruct (rp (BasePath loaded)); [|eauto]. case_decide; eauto.
Qed.

(** C3. An error received from the runner of the current instance:
    [http.ErrServerClosed] sends the supervisor back to [Starting], where
    the next iteration can run; any other error is logged by [log.Fatal]
    and the process exits, after which nothing moves. *)
Theorem instance_failure_restart_or_fatal s i e :
  exit s = None → sup s = Running i → inst_runner i s = Sending e →
  ∃ s1,
    step rp SupSelectErr s = Some s1 ∧
    (e = ErrServerClosed →
       exit s1 = None ∧ sup s1 = Starting ∧
       trace s1 = trace s ++ [PrintErrChan e] ∧
       ∀ loaded loadErr, is_Some (step rp (SupIterate loaded loadErr) s1)) ∧
    (e ≠ ErrServerClosed →
       exit s1 = Some ExitFatal ∧
       trace s1 = trace s ++ [PrintErrChan e; LogFatal e] ∧
       length (insts s1) = length (insts s) ∧
       ∀ l, step rp l s1 = None).
Proof.
  intros He Hs Hr. unfold step at 1. unfold select_errChan. rewrite He, Hs, Hr.
  case_decide as Hdec.
  - eexists. split; [reflexivity|]. split; [congruence|]. intros _.
    simpl_state. split; [reflexivity|]. split.
    { rewrite <- app_assoc. reflexivity. }
    split; [apply length_alter|].
    intros l. apply (step_exited l _ ExitFatal). reflexivity.
  - eexists. split; [reflexivity|]. split; [|congruence]. intros _.
    simpl_state. split; [assumption|]. split; [reflexivity|].
    split; [reflexivity|].
    intros loaded loadErr. apply iterate_enabled; simpl_state; auto.
Qed.

(** C5. With a parent router, an iteration whose base path yields no route
    prefix panics: the process is dead with that error, the instance of
    the iteration was never launched, the router and the older instances
    are as they were, and nothing moves afterwards. *)
Theorem invalid_base_path_panics s mux loaded loadErr e :
  exit s = None → sup s = Starting → parentRouter s = Some mux →
  rp (BasePath loaded) = Err e →
  ∃ s1,
    step rp (SupIterate loaded loadErr) s = Some s1 ∧
    exit s1 = Some (ExitPanic e) ∧
    inst_runner (length (insts s)) s1 = NotLaunched ∧
    (∀ j, j < length (insts s) → insts s1 !! j = insts s !! j) ∧
    parentRouter s1 = Some mux ∧
    registeredPrefixes s1 = registeredPrefixes s ∧
    (∀ l, step rp l s1 = None).
Proof.
  intros He Hs Hp Hrp. unfold step at 1. unfold runLoop_iterate.
  rewrite He, Hs.
  assert (Hp' : parentRouter (loadConfig loadErr s) = Some mux).
  { destruct loadErr; exact Hp. }
  rewrite Hp', Hrp. eexists. split; [reflexivity|].
  unfold newInst, inst_runner. simpl_state. split; [reflexivity|].
  assert (Hi : insts (loadConfig loadErr s) = insts s) by (destruct loadErr; reflexivity).
  rewrite Hi. split; [apply runner_snoc|]. split.
  { intros j Hj. apply lookup_app_l. exact Hj. }
  split; [exact Hp'|]. split; [destruct loadErr; reflexivity|].
  intros l. apply (step_exited l _ (ExitPanic e)). reflexivity.
Qed.

(** C6. An iteration whose [Load] failed is the iteration whose [Load]
    succeeded with the same resulting [serv.cfg], preceded by one error
    line in the log: same process status, same supervisor state, same
    instances, same router.  Unless the process dies in the iteration,
    which it then does with or without the [Load] error, the instance is
    launched with the configuration the loader left behind. *)
Theorem config_load_failure_is_not_fatal s loaded e :
  exit s = None → sup s = Starting →
  step rp (SupIterate loaded (Some e)) s =
    step rp (SupIterate loaded None) (emit (LogLoadFailed e) s) ∧
  ∃ s1 s0,
    step rp (SupIterate loaded (Some e)) s = Some s1 ∧
    step rp (SupIterate loaded None) s = Some s0 ∧
    (∃ tr, trace s0 = trace s ++ tr ∧
           trace s1 = trace s ++ LogLoadFailed e :: tr) ∧
    exit s1 = exit s0 ∧ sup s1 = sup s0 ∧ insts s1 = insts s0 ∧
    parentRouter s1 = parentRouter s0 ∧
    registeredPrefixes s1 = registeredPrefixes s0 ∧
    (exit s1 = None →
       sup s1 = WaitStarted (length (insts s)) ∧
       insts s1 !! length (insts s) =
         Some (mkInst loaded (replaceableHandler s) InRun false false false)).
Proof.
  intros He Hs. split; [reflexivity|].
  unfold step, runLoop_iterate, loadConfig. simpl_state. rewrite He, Hs.
  destruct (parentRouter s) as [mux|] eqn:Hp;
    [destruct (rp (BasePath loaded)) as [routePrefix|err] eqn:Hrp; [case_decide|]|];
    eexists; eexists; (split; [reflexivity|]); (split; [reflexivity|]);
    unfold launch, newInst, mount; simpl_state.
  - split; [exists []; rewrite app_nil_r; auto|].
    do 5 (split; [reflexivity|]).
    intros _. split; [reflexivity|]. apply list_lookup_middle. reflexivity.
  - split; [exists [LogMounted routePrefix]; rewrite <- app_assoc; auto|].
    do 5 (split; [reflexivity|]).
    intros _. split; [reflexivity|]. apply list_lookup_middle. reflexivity.
  - split; [exists []; rewrite app_nil_r; auto|].
    do 5 (split; [reflexivity|]). discriminate.
  - split; [exists []; rewrite app_nil_r; auto|].
    do 5 (split; [reflexivity|]).
    intros _. split; [reflexivity|]. apply list_lookup_middle. reflexivity.
Qed.

(** C8. [SIGHUP] gives a [Reload] intent, [SIGINT] and [SIGTERM] each give a
    [Shutdown] intent, and nothing else gives an intent; along every run,
    the intents [signalHandler] has sent, followed by the one it is about
    to send, are the translations of the signals it has received, in
    order. *)
Theorem signal_translation router path s :
  reachable rp router path s →
  switch_sig SIGHUP = Some Reload ∧
  switch_sig SIGINT = Some Shutdown ∧
  switch_sig SIGTERM = Some Shutdown ∧
  (∀ sig k, switch_sig sig = Some k →
     (k = Reload ∧ sig = SIGHUP) ∨
     (k = Shutdown ∧ (sig = SIGINT ∨ sig = SIGTERM))) ∧
  omap sent_of (trace s) ++ pending (sigH s) =
    omap switch_sig (omap received_of (trace s)).
Proof.
  intros [ls Hls]. repeat (split; [reflexivity|]). split.
  - intros sig k. unfold switch_sig.
    destruct (Z.eqb_spec sig SIGHUP); [intros [= <-]; auto|].
    destruct (Z.eqb_spec sig SIGINT); [intros [= <-]; auto|].
    destruct (Z.eqb_spec sig SIGTERM); [intros [= <-]; auto|].
    discriminate.
  - apply (run_preserves
             (λ t, omap sent_of (trace t) ++ pending (sigH t) =
                   omap switch_sig (omap received_of (trace t))))
      with (ls := ls) (s := RunServer router path);
      [|reflexivity|exact Hls].
    clear. intros l s s' IH H. destruct l; step_paths.
    all: rewrite ?omap_app; simpl; rewrite ?app_nil_r; try assumption.
    all: try match goal with H : sigH _ = _ |- _ => rewrite H in IH end.
    all: simpl in IH; rewrite ?app_nil_r in IH.
    all: try match goal with H : switch_sig _ = _ |- _ => rewrite H end.
    all: rewrite <- ?IH, <- ?app_assoc; try reflexivity.
    rewrite H1. reflexivity.
Qed.

(** C7, as the code has it.  The send of an intent is a plain send on a
    channel of capacity one.  With the channel of that kind empty the send
    goes through at once.  With a token of that kind still unconsumed the
    worker cannot move: it stays at the send, holding the intent, whatever
    the rest of the program does, and the channel loses its token only to
    the supervisor's select; nothing is dropped. *)
Theorem intent_delivery_blocks_while_pending s k :
  exit s = None → sigH s = HSend k →
  (chan k s = 0 →
     ∃ s', step rp HandlerStep s = Some s' ∧
           chan k s' = 1 ∧ sigH s' = HRecv ∧
           trace s' = trace s ++ [IntentSent k]) ∧
  (chan k s ≠ 0 →
     step rp HandlerStep s = None ∧
     ∀ l s', step rp l s = Some s' →
       sigH s' = HSend k ∧
       omap sent_of (trace s') = omap sent_of (trace s) ∧
       (chan k s' = chan k s ∨
        (S (chan k s') = chan k s ∧
         l = match k with
             | Reload => SupSelectReload
             | Shutdown => SupSelectDone
             end))).
Proof.
  intros He Hh. split.
  - intros Hc. unfold step, signalHandler. rewrite He, Hh.
    destruct k; unfold chan in *; rewrite Hc; simpl; eauto.
  - intros Hc.
    assert (Hblocked : step rp HandlerStep s = None).
    { unfold step, signalHandler, chan_send. rewrite He, Hh.
      destruct k; unfold chan in *.
      - destruct (reloadRequested s); [congruence | reflexivity].
      - destruct (done s); [congruence | reflexivity]. }
    split; [exact Hblocked|].
    intros l s' H. destruct l; try congruence; clear Hblocked.
    all: step_paths; unfold chan in *; simpl_state.
    all: rewrite ?omap_app; simpl; rewrite ?app_nil_r.
    all: try destruct k; auto.
Qed.

(** The line "Server listening" is written by one move only: the receive
    from the started channel of the current instance, in standalone mode,
    with that instance's listen address. *)
Lemma step_listening l s s' a :
  step rp l s = Some s' → LogListening a ∈ emitted s s' →
  l = SupStarted ∧ parentRouter s = None ∧
  ∃ i x, sup s = WaitStarted i ∧ insts s !! i = Some x ∧
         started x = true ∧ a = ListenAddress (cfg x) ∧ sup s' = Running i.
Proof.
  intros H. unfold emitted. destruct l; step_paths.
  all: rewrite <- ?app_assoc, ?drop_app_length, ?drop_all; simpl.
  all: rewrite ?elem_of_cons, ?elem_of_nil; intros Hin.
  all: try (exfalso; intuition congruence).
  destruct Hin as [[= ->]|[]]. split; [reflexivity|]. split; [reflexivity|].
  eauto 10.
Qed.

(** Without a parent router, [routePrefixFromBasePath] plays no part. *)
Lemma step_router_none l s s' :
  parentRouter s = None → step rp l s = Some s' → parentRouter s' = None.
Proof.
  intros Hp H. destruct l; step_paths; congruence.
Qed.

Lemma step_standalone_indep (rp' : string → result string) l s :
  parentRouter s = None → step rp' l s = step rp l s.
Proof.
  intros Hp. unfold step. destruct (exit s); [reflexivity|].
  destruct l; try reflexivity.
  unfold runLoop_iterate. destruct (sup s); try reflexivity.
  assert (Hp' : parentRouter (loadConfig loadErr s) = None).
  { destruct loadErr; exact Hp. }
  rewrite Hp'. reflexivity.
Qed.

Lemma run_standalone_indep (rp' : string → result string) ls s :
  parentRouter s = None → run rp' ls s = run rp ls s.
Proof.
  revert s. induction ls as [|l ls IH]; intros s Hp; simpl; [reflexivity|].
  rewrite (step_standalone_indep rp' l s Hp).
  destruct (step rp l s) as [s1|] eqn:E; [|reflexivity].
  apply IH. eapply step_router_none; eauto.
Qed.

(** What standalone mode keeps true. *)
Lemma standalone_step l s s' :
  Inv s → step rp l s = Some s' →
  parentRouter s = None ∧ replaceableHandler s = None ∧
  registeredPrefixes s = ∅ ∧ (∀ p, LogMounted p ∉ trace s) ∧
  (∀ pattern, registrations pattern s = 0) →
  parentRouter s' = None ∧ replaceableHandler s' = None ∧
  registeredPrefixes s' = ∅ ∧ (∀ p, LogMounted p ∉ trace s') ∧
  (∀ pattern, registrations pattern s' = 0) ∧
  (∀ e, exit s' ≠ Some (ExitPanic e)).
Proof.
  intros [I1 _ _ _ _] H (Hp & Hh & Hr & Hm & Hg).
  unfold registrations in *.
  destruct l; step_paths; try congruence.
  all: repeat split; try assumption; try reflexivity.
  all: try (intros; congruence).
  all: intros p; rewrite !not_elem_of_app, !list_elem_of_singleton;
    repeat split; first [apply Hm | congruence].
Qed.

(** C10. With a nil parent router, in every state of every run: there is
    no router and no indirection, no prefix has been recorded, mounted or
    registered, the process has not panicked, and the run does not depend
    on [routePrefixFromBasePath] at all.  An iteration launches its
    instance whatever the base path is.  The line "Server listening" is
    written only by the move that receives from the started channel of the
    current instance, once that channel has fired, and carries that
    instance's listen address. *)
Theorem standalone_mode_skips_registration path s :
  reachable rp None path s →
  parentRouter s = None ∧ replaceableHandler s = None ∧
  registeredPrefixes s = ∅ ∧
  (∀ p, LogMounted p ∉ trace s) ∧
  (∀ pattern, registrations pattern s = 0) ∧
  (∀ e, exit s ≠ Some (ExitPanic e)) ∧
  (∀ (rp' : string → result string) ls,
     run rp' ls (RunServer None path) = run rp ls (RunServer None path)) ∧
  (∀ loaded loadErr, exit s = None → sup s = Starting →
     ∃ s', step rp (SupIterate loaded loadErr) s = Some s' ∧
           exit s' = None ∧ sup s' = WaitStarted (length (insts s)) ∧
           inst_runner (length (insts s)) s' = InRun) ∧
  (∀ l s' a, step rp l s = Some s' → LogListening a ∈ emitted s s' →
     l = SupStarted ∧
     ∃ i x, sup s = WaitStarted i ∧ insts s !! i = Some x ∧
            started x = true ∧ a = ListenAddress (cfg x) ∧
            sup s' = Running i) ∧
  (∀ i x, exit s = None → sup s = WaitStarted i → insts s !! i = Some x →
     (started x = false → step rp SupStarted s = None) ∧
     (started x = true →
      ∃ s', step rp SupStarted s = Some s' ∧ sup s' = Running i ∧
            emitted s s' = [LogListening (ListenAddress (cfg x))])).
Proof.
  intros Hr.
  assert (HS : Inv s ∧
    (parentRouter s = None ∧ replaceableHandler s = None ∧
     registeredPrefixes s = ∅ ∧ (∀ p, LogMounted p ∉ trace s) ∧
     (∀ pattern, registrations pattern s = 0)) ∧
    (∀ e, exit s ≠ Some (ExitPanic e))).
  { destruct Hr as [ls Hls].
    apply (run_preserves
             (λ t, Inv t ∧
                (parentRouter t = None ∧ replaceableHandler t = None ∧
                 registeredPrefixes t = ∅ ∧ (∀ p, LogMounted p ∉ trace t) ∧
                 (∀ pattern, registrations pattern t = 0)) ∧
                (∀ e, exit t ≠ Some (ExitPanic e))))
      with (ls := ls) (s := RunServer None path); [| |exact Hls].
    - intros l t t' (HI & HP & _) Hstep. split; [eapply Inv_step; eauto|].
      pose proof (standalone_step l t t' HI Hstep HP). tauto.
    - split; [apply Inv_init|]. simpl. repeat split; try discriminate.
      intros p. apply not_elem_of_nil. }
  destruct HS as (HI & (Hp & Hh & Hg & Hm & Hn) & Hx).
  repeat (split; [assumption|]). split.
  { intros rp' ls. apply run_standalone_indep. reflexivity. }
  split.
  { intros loaded loadErr He Hs. unfold step, runLoop_iterate. rewrite He, Hs.
    assert (Hp' : parentRouter (loadConfig loadErr s) = None).
    { destruct loadErr; exact Hp. }
    rewrite Hp'. eexists. split; [reflexivity|].
    unfold launch, newInst, inst_runner. simpl_state.
    assert (Hi : insts (loadConfig loadErr s) = insts s) by (destruct loadErr; reflexivity).
    rewrite Hi. split; [destruct loadErr; exact He|]. split; [reflexivity|].
    apply runner_snoc. }
  split.
  { intros l s' a Hstep Hin.
    destruct (step_listening l s s' a Hstep Hin) as (Hl & _ & Hrest). auto. }
  intros i x He Hs Hi. unfold step, runLoop_started. rewrite He, Hs, Hi, Hp.
  split; intros Hst; rewrite Hst; [reflexivity|].
  eexists. split; [reflexivity|]. split; [reflexivity|].
  unfold emitted. simpl_state. apply drop_app_length.
Qed.

(** What an iteration does to the parent router.  A prefix already in
    [registeredPrefixes] is skipped; a new one is recorded and handed to
    [Handle], followed by its trailing-separator form unless it already
    ends in the separator, both with the one [replaceableHandler]. *)
Lemma iterate_registration s mux loaded loadErr p :
  exit s = None → sup s = Starting → parentRouter s = Some mux →
  rp (BasePath loaded) = Ok p →
  ∃ s',
    step rp (SupIterate loaded loadErr) s = Some s' ∧
    (p ∈ registeredPrefixes s →
       parentRouter s' = Some mux ∧
       registeredPrefixes s' = registeredPrefixes s) ∧
    (p ∉ registeredPrefixes s →
       registeredPrefixes s' = {[p]} ∪ registeredPrefixes s ∧
       parentRouter s' =
         Some (mux ++ (p, replaceableHandler s)
                 :: (if HasSuffix p "/" then []
                     else [(p +:+ "/", replaceableHandler s)]))).
Proof.
  intros He Hs Hp Hrp. unfold step, runLoop_iterate. rewrite He, Hs.
  assert (Hp' : parentRouter (loadConfig loadErr s) = Some mux)
    by (destruct loadErr; exact Hp).
  assert (Hr : registeredPrefixes (loadConfig loadErr s) = registeredPrefixes s)
    by (destruct loadErr; reflexivity).
  assert (Hh : replaceableHandler (loadConfig loadErr s) = replaceableHandler s)
    by (destruct loadErr; reflexivity).
  rewrite Hp', Hrp, Hr. case_decide as Hin.
  - eexists. split; [reflexivity|]. unfold launch, newInst. simpl_state.
    split; [auto | intros Hn; contradiction].
  - eexists. split; [reflexivity|]. unfold launch, newInst, mount, Handle.
    simpl_state. split; [intros Hy; contradiction|]. intros _.
    rewrite Hr, Hh. split; [reflexivity|].
    destruct (HasSuffix p "/"); [reflexivity|].
    rewrite <- app_assoc. reflexivity.
Qed.

Lemma filter_mounted_other (a : Action) p :
  a ≠ LogMounted p → filter (λ a, a = LogMounted p) [a] = [].
Proof.
  intros Hne. rewrite filter_cons. case_decide; [contradiction | reflexivity].
Qed.

Lemma filter_mounted_same p :
  filter (λ a, a = LogMounted p) [LogMounted p] = [LogMounted p].
Proof.
  rewrite filter_cons, filter_nil. case_decide; [reflexivity | congruence].
Qed.

Lemma filter_mounted_absent (l : list Action) p :
  LogMounted p ∉ l → filter (λ a, a = LogMounted p) l = [].
Proof.
  induction l as [|a l IH]; intros Hn; [reflexivity|].
  rewrite not_elem_of_cons in Hn. destruct Hn as [Hne Hn].
  rewrite filter_cons. case_decide; [congruence | auto].
Qed.

(** X17. The block of lines 82-90 runs at most once for each prefix, however
    many iterations there are: a prefix is logged as mounted only once it
    is in [registeredPrefixes], and never twice. *)
Lemma prefix_mounted_at_most_once router path s p :
  reachable rp router path s →
  mounts p s ≤ 1 ∧ (p ∉ registeredPrefixes s → LogMounted p ∉ trace s).
Proof.
  intros [ls Hls]. unfold mounts. revert p.
  apply (run_preserves
           (λ t, ∀ p, length (filter (λ a, a = LogMounted p) (trace t)) ≤ 1 ∧
                      (p ∉ registeredPrefixes t → LogMounted p ∉ trace t)))
    with (ls := ls) (s := RunServer router path); [| |exact Hls].
  - clear. intros l s s' IH H. destruct l; step_paths; try exact IH.
    all: intros q; destruct (IH q) as [Hc Hn].
    all: rewrite ?filter_app, ?length_app, ?not_elem_of_app,
           ?list_elem_of_singleton.
    all: rewrite ?filter_mounted_other by discriminate; simpl length.
    all: try (split; [lia | intros Hq; repeat split; auto; discriminate]).
    all: destruct (decide (q = a)) as [->|Hne].
    all: try (rewrite (filter_mounted_absent (trace s)) by auto;
              rewrite filter_mounted_same;
              split; [simpl; lia
                     | intros Hq; exfalso;
                       apply Hq, elem_of_union_l, elem_of_singleton;
                       reflexivity]).
    all: rewrite filter_mounted_other by congruence; simpl length.
    all: split; [lia | intros Hq; repeat split;
                       first [apply Hn; intros Hin;
                              apply Hq, elem_of_union_r, Hin
                             | congruence | discriminate]].
  - intros q. simpl. split; [lia | intros _; apply not_elem_of_nil].
Qed.

(** The parent router holds what it was given, followed by the calls of
    one registration block per distinct derived prefix, in the order the
    prefixes first appeared, all on the one indirection; the prefixes
    recorded in [registeredPrefixes] are exactly those. *)
Lemma router_contents mux0 path s :
  reachable rp (Some mux0) path s →
  replaceableHandler s = Some ReplaceableHandlerPtr ∧
  parentRouter s =
    Some (mux0 ++ flat_map (handlers_for (Some ReplaceableHandlerPtr))
                    (omap mounted_of (trace s))) ∧
  NoDup (omap mounted_of (trace s)) ∧
  (∀ p, p ∈ registeredPrefixes s ↔ p ∈ omap mounted_of (trace s)).
Proof.
  intros [ls Hls].
  apply (run_preserves
           (λ t, replaceableHandler t = Some ReplaceableHandlerPtr ∧
                 parentRouter t =
                   Some (mux0 ++ flat_map (handlers_for (Some ReplaceableHandlerPtr))
                                   (omap mounted_of (trace t))) ∧
                 NoDup (omap mounted_of (trace t)) ∧
                 (∀ p, p ∈ registeredPrefixes t ↔ p ∈ omap mounted_of (trace t))))
    with (ls := ls) (s := RunServer (Some mux0) path); [| |exact Hls].
  - clear. intros l s s' (Hh & Hp & Hnd & Hreg) H.
    destruct l; step_paths; try (repeat split; assumption).
    all: rewrite ?omap_app; simpl; rewrite ?app_nil_r.
    all: try (split; [assumption|]; split; [assumption|];
              split; [assumption|]; exact Hreg).
    all: try congruence.
    all: assert (Hfresh : a ∉ omap mounted_of (trace s))
           by (rewrite <- Hreg; assumption).
    all: split; [assumption|].
    all: try match goal with
             | H : parentRouter ?t = Some ?m,
               H' : parentRouter ?t = Some (_ ++ _) |- _ =>
                 is_var m; rewrite H in H'; injection H' as ->
             end.
    all: split;
      [ rewrite flat_map_app; simpl; rewrite ?app_nil_r;
        unfold handlers_for, Handle; rewrite Hh;
        match goal with H : HasSuffix _ _ = _ |- _ => rewrite H end;
        rewrite <- ?app_assoc; reflexivity |].
    all: split;
      [ apply NoDup_app; split; [assumption|]; split;
        [ intros x Hx Hx'; apply list_elem_of_singleton in Hx'; congruence
        | apply NoDup_singleton ] |].
    all: intros q; rewrite elem_of_union, elem_of_singleton, elem_of_app,
           list_elem_of_singleton, Hreg; tauto.
  - simpl. repeat split; try (rewrite app_nil_r; reflexivity);
      try apply NoDup_nil_2; intros Hq; try (apply elem_of_nil in Hq);
      try (apply elem_of_empty in Hq); contradiction.
Qed.

(** * Further properties of the supervisor *)

(** Induction over the states of a run, with reachability at hand. *)
Lemma reachable_induction (P : state → Prop) router path :
  P (RunServer router path) →
  (∀ l s s', reachable rp router path s → P s →
             step rp l s = Some s' → P s') →
  ∀ s, reachable rp router path s → P s.
Proof.
  intros H0 Hstep s [ls Hls].
  cut (reachable rp router path s ∧ P s); [tauto|].
  apply (run_preserves (λ t, reachable rp router path t ∧ P t))
    with (ls := ls) (s := RunServer router path); [| |exact Hls].
  - intros l t t' [Hr Hp] Hs.
    split; [eapply reachable_step; eauto | eapply Hstep; eauto].
  - split; [exists []; reflexivity | exact H0].
Qed.

Ltac bounds :=
  repeat match goal with
         | H : _ && _ = true |- _ => apply andb_true_iff in H; destruct H
         | H : (_ <? _) = true |- _ => apply Nat.ltb_lt in H
         | H : (_ =? _) = true |- _ => apply Nat.eqb_eq in H
         end.

(** X1. The three channels never hold more than their capacity of one: the
    two intent channels of lines 21-22 and the signal channel of line 38. *)
Lemma channel_capacities router path s :
  reachable rp router path s →
  reloadRequested s ≤ 1 ∧ done s ≤ 1 ∧ length (signals s) ≤ 1.
Proof.
  revert s. apply reachable_induction; [simpl; lia|].
  intros l s s' _ (Hr & Hd & Hs) H. destruct l; step_paths; bounds.
  all: rewrite ?length_app; simpl in *; lia.
Qed.

(** X2. The wait group is at one until the loop has returned and at zero from
    then on; the [wg.Done()] of line 149 always finds it at one, so it
    never panics on a negative counter. *)
Lemma wait_group_released_once router path s :
  reachable rp router path s →
  wg s = match sup s with Stopped => 0 | _ => 1 end ∧
  (∀ s', step rp SupShutdownReturns s = Some s' →
         exit s' = None ∧ sup s' = Stopped ∧ wg s' = 0) ∧
  (∀ l s', step rp l s = Some s' → wg s' ≤ wg s).
Proof.
  intros Hr. pose proof (reachable_Inv _ _ _ Hr) as [I1 _ _ _ _].
  split; [exact I1|]. split.
  - intros s' H. step_paths; try congruence. auto.
  - intros l s' H. destruct (step_wg l s s' H) as [->|(_ & i & _ & _ & _ & Hw)]; lia.
Qed.

(** Counting an element in a list that grows at the end. *)
Lemma count_snoc {A : Type} `{EqDecision A} (a b : A) (l : list A) :
  length (filter (λ x, x = a) (l ++ [b])) =
  length (filter (λ x, x = a) l) + (if decide (b = a) then 1 else 0).
Proof.
  rewrite filter_app, length_app, filter_cons, filter_nil.
  case_decide; reflexivity.
Qed.

Lemma count_pos {A : Type} `{EqDecision A} (a : A) (l : list A) :
  length (filter (λ x, x = a) l) ≠ 0 → a ∈ l.
Proof.
  destruct (filter (λ x, x = a) l) as [|x k] eqn:E; [simpl; lia|].
  intros _. assert (Hx : x ∈ filter (λ x, x = a) l) by (rewrite E; left).
  apply list_elem_of_filter in Hx as [-> Hx]. exact Hx.
Qed.

Ltac count_trace :=
  rewrite ?omap_app; simpl omap; rewrite ?app_nil_r;
  rewrite ?count_snoc; repeat case_decide; try congruence;
  rewrite ?length_app, ?length_insert; simpl length.

(** X3. "Shutdown initiated" is logged exactly when the supervisor takes the
    [done] case, once at most; "Shutdown complete" exactly when [RunServer]
    returns, once at most, and at that moment "Shutdown initiated" is
    already in the log and the loop has returned. *)
Lemma shutdown_logged_once_in_order router path s :
  reachable rp router path s →
  occurrences LogShutdownStarted s =
    match sup s with ShuttingDown _ | Stopped => 1 | _ => 0 end ∧
  occurrences LogShutdownComplete s =
    match main s with MainReturned => 1 | MainWaiting => 0 end ∧
  (∀ l s', step rp l s = Some s' → LogShutdownComplete ∈ emitted s s' →
     l = MainWake ∧ sup s = Stopped ∧ LogShutdownStarted ∈ trace s).
Proof.
  intros Hr.
  assert (Hc : occurrences LogShutdownStarted s =
                 match sup s with ShuttingDown _ | Stopped => 1 | _ => 0 end ∧
               occurrences LogShutdownComplete s =
                 match main s with MainReturned => 1 | MainWaiting => 0 end).
  { revert s Hr. apply reachable_induction; [split; reflexivity|].
    intros l s s' _ [H1 H2] H. unfold occurrences in *.
    destruct l; step_paths; count_trace.
    all: try match goal with H : sup _ = _ |- _ => rewrite H in * end.
    all: try match goal with H : main _ = _ |- _ => rewrite H in * end.
    all: split; lia. }
  split; [apply Hc|]. split; [apply Hc|].
  intros l s' H. unfold emitted.
  pose proof (reachable_Inv _ _ _ Hr) as [I1 _ _ _ _].
  destruct Hc as [Hc _]. unfold occurrences in Hc.
  destruct l; step_paths.
  all: rewrite <- ?app_assoc, ?drop_app_length, ?drop_all; simpl.
  all: rewrite ?elem_of_cons, ?elem_of_nil; intros Hin.
  all: try (exfalso; intuition congruence).
  all: bounds; try lia.
  repeat split. apply count_pos. rewrite Hc. discriminate.
Qed.

(** X4. No intent is lost or invented between [signalHandler] and the select:
    the reload intents sent are those still in the channel plus one per
    reload goroutine spawned, and the shutdown intents sent are those
    still in the channel plus the one, if any, the supervisor took. *)
Lemma intents_conserved router path s :
  reachable rp router path s →
  sent Reload s = reloadRequested s + length (tasks s) ∧
  sent Shutdown s =
    done s + match sup s with ShuttingDown _ | Stopped => 1 | _ => 0 end.
Proof.
  revert s. apply reachable_induction; [split; reflexivity|].
  intros l s s' _ [H1 H2] H. unfold sent in *.
  destruct l; step_paths; count_trace.
  all: try match goal with H : sup _ = _ |- _ => rewrite H in * end.
  all: split; lia.
Qed.

(** X5. The loop goes round only when the select says so: while the process
    lives, the instances made are one per reload acted on, one per
    [http.ErrServerClosed] received, and the one of the iteration under
    way. *)
Lemma instances_match_restarts router path s :
  reachable rp router path s → exit s = None →
  length (insts s) =
    restarts s + match sup s with Starting => 0 | _ => 1 end.
Proof.
  revert s.
  apply (reachable_induction
           (λ s, exit s = None →
                 length (insts s) =
                   restarts s + match sup s with Starting => 0 | _ => 1 end));
    [reflexivity|].
  intros l s s' _ IH H He'.
  assert (He : exit s = None).
  { unfold step in H. destruct (exit s); [discriminate | reflexivity]. }
  specialize (IH He). unfold restarts, occurrences in *.
  destruct l; step_paths; count_trace; rewrite ?length_alter.
  all: try match goal with H : sup _ = _ |- _ => rewrite H in * end.
  all: try lia.
  all: try discriminate.
  exfalso. destruct (decide (e = ErrServerClosed)); [subst; congruence|].
  contradiction.
Qed.

(** X6. [log.Fatal] is reached only with an error other than
    [http.ErrServerClosed]; its line, right after the [Printf] of the same
    error, is the last thing the process does; and the process has exited
    through [log.Fatal] exactly when that line is in the log. *)
Lemma fatal_only_for_unexpected_error router path s :
  reachable rp router path s →
  (∀ e, LogFatal e ∈ trace s →
     e ≠ ErrServerClosed ∧ exit s = Some ExitFatal ∧
     ∃ tr, trace s = tr ++ [PrintErrChan e; LogFatal e]) ∧
  (exit s = Some ExitFatal → ∃ e, LogFatal e ∈ trace s).
Proof.
  revert s. apply reachable_induction.
  { split; [intros e He; apply elem_of_nil in He; destruct He | discriminate]. }
  intros l s s' _ [IH1 IH2] H.
  assert (He : exit s = None).
  { unfold step in H. destruct (exit s); [discriminate | reflexivity]. }
  assert (Hno : ∀ e, LogFatal e ∉ trace s).
  { intros e Hin. destruct (IH1 e Hin) as (_ & Hx & _). congruence. }
  clear IH1 IH2. destruct l; step_paths.
  all: split;
    [ intros e' Hin; rewrite ?elem_of_app, ?list_elem_of_singleton in Hin;
      repeat match goal with H : _ ∨ _ |- _ => destruct H end;
      try discriminate; try (exfalso; eapply Hno; eassumption)
    | intros Hx; try congruence ].
  - simplify_eq. split; [assumption|]. split; [reflexivity|].
    exists (trace s). rewrite <- app_assoc. reflexivity.
  - eexists. apply elem_of_app. right. apply list_elem_of_singleton. reflexivity.
Qed.

Lemma notified_switch sig :
  notified sig = true →
  (sig = SIGHUP ∨ sig = SIGINT ∨ sig = SIGTERM) ∧ is_Some (switch_sig sig).
Proof.
  unfold notified, switch_sig.
  destruct (Z.eqb_spec sig SIGHUP); [eauto|].
  destruct (Z.eqb_spec sig SIGINT); [eauto|].
  destruct (Z.eqb_spec sig SIGTERM); [eauto|]. discriminate.
Qed.

(** X7. Only the three signals named at line 40 ever reach [signalHandler], so
    the switch of lines 43-53 never falls through without a send: every
    signal received has produced one intent, sent or about to be sent. *)
Lemma every_received_signal_is_translated router path s :
  reachable rp router path s →
  Forall (λ sig, sig = SIGHUP ∨ sig = SIGINT ∨ sig = SIGTERM)
    (signals s ++ omap received_of (trace s)) ∧
  length (omap sent_of (trace s)) + length (pending (sigH s)) =
    length (omap received_of (trace s)).
Proof.
  revert s. apply reachable_induction.
  { split; [constructor | reflexivity]. }
  intros l s s' _ [IH1 IH2] H. destruct l; step_paths; count_trace.
  all: try match goal with H : sigH _ = _ |- _ => rewrite H in * end.
  all: simpl in IH2.
  all: try (split; [assumption | lia]).
  all: rewrite ?Forall_app, ?Forall_cons, ?Forall_singleton in *.
  all: try match goal with H : signals _ = _ |- _ => rewrite H in * end.
  all: rewrite ?Forall_cons in *.
  all: bounds; rewrite ?Forall_nil.
  - split; [|assumption]. destruct (notified_switch _ H) as [Hs _]. tauto.
  - destruct IH1 as [[Hz Hl] Hrec]. split; [tauto | simpl in *; lia].
  - exfalso. destruct IH1 as [[Hz Hl] Hrec].
    assert (Hn : notified z = true).
    { unfold notified. destruct Hz as [Hz|[Hz|Hz]]; rewrite Hz; reflexivity. }
    destruct (notified_switch z Hn) as [_ [k Hk]]. congruence.
Qed.

(** What one move does to the supervisor. *)
Lemma sup_edges l s s' :
  step rp l s = Some s' →
  sup s' = sup s ∨
  (sup s = Starting ∧ sup s' = WaitStarted (length (insts s)) ∧
   ∃ c e, l = SupIterate c e) ∨
  (∃ i, sup s = WaitStarted i ∧ sup s' = Running i ∧ l = SupStarted ∧
        inst_flag started i s = true) ∨
  (∃ i, sup s = Running i ∧ sup s' = Starting ∧
        (l = SupSelectReload ∨ l = SupSelectErr)) ∨
  (∃ i, sup s = Running i ∧ sup s' = ShuttingDown i ∧ l = SupSelectDone) ∨
  (∃ i, sup s = ShuttingDown i ∧ sup s' = Stopped ∧ l = SupShutdownReturns).
Proof.
  intros H. destruct l; step_paths; try (left; congruence).
  all: right.
  all: try (left; split; [reflexivity|]; split; [reflexivity|]; eauto; fail).
  all: right.
  all: try (left; exists i; unfold inst_flag, flag_at;
            match goal with H : insts _ !! _ = _ |- _ => rewrite H end;
            auto; fail).
  all: right.
  all: try (left; exists i; auto; fail).
  all: right.
  all: try (left; exists i; auto; fail).
  all: right; exists i; auto.
Qed.

Lemma inst_runner_eq j s : inst_runner j s = runner_at (insts s) j.
Proof. reflexivity. Qed.

Lemma runner_at_alter_ne f l i j :
  i ≠ j → runner_at (alter f j l) i = runner_at l i.
Proof.
  intros Hne. unfold runner_at. rewrite list_lookup_alter_ne by congruence.
  reflexivity.
Qed.

Lemma runner_at_alter_same f l i j :
  (∀ x, runner (f x) = runner x) → runner_at (alter f j l) i = runner_at l i.
Proof.
  intros Hf. unfold runner_at. rewrite list_lookup_alter. case_decide; subst.
  - destruct (l !! i); simpl; auto.
  - reflexivity.
Qed.

Lemma runner_at_alter_set r l i :
  i < length l → runner_at (alter (set_runner r) i l) i = r.
Proof.
  intros Hi. unfold runner_at. rewrite list_lookup_alter_eq.
  destruct (lookup_lt_is_Some_2 l i Hi) as [x ->]. reflexivity.
Qed.

Lemma runner_at_snoc_ne l x i :
  i ≠ length l → runner_at (l ++ [x]) i = runner_at l i.
Proof.
  intros Hne. unfold runner_at. destruct (decide (i < length l)).
  - rewrite lookup_app_l by assumption. reflexivity.
  - rewrite !lookup_ge_None_2; [reflexivity | lia |].
    rewrite length_app. simpl. lia.
Qed.

Lemma runner_at_snoc_eq l x : runner_at (l ++ [x]) (length l) = runner x.
Proof. apply runner_snoc. Qed.

Lemma runner_at_lt l i : runner_at l i ≠ NotLaunched → i < length l.
Proof.
  unfold runner_at. destruct (l !! i) eqn:E; [|congruence].
  intros _. apply lookup_lt_is_Some. eauto.
Qed.

Ltac simpl_runners :=
  rewrite ?inst_runner_eq in *; simpl_state;
  rewrite ?(runner_at_alter_same set_started) by (intros []; reflexivity);
  rewrite ?(runner_at_alter_same set_shutdownCalled) by (intros []; reflexivity);
  rewrite ?(runner_at_alter_same set_drained) by (intros []; reflexivity).

(** What one move does to the runner of instance [j]. *)
Lemma runner_edges l s s' j :
  step rp l s = Some s' →
  inst_runner j s' = inst_runner j s ∨
  (inst_runner j s = NotLaunched ∧ j = length (insts s) ∧
   (∃ c e, l = SupIterate c e) ∧ inst_runner j s' = InRun) ∨
  (inst_runner j s = InRun ∧
   ∃ err, l = RunReturns j err ∧
          inst_runner j s' = match err with
                             | Some e => Sending e
                             | None => Exited
                             end) ∨
  (∃ e, inst_runner j s = Sending e ∧ l = SupSelectErr ∧
        sup s = Running j ∧ inst_runner j s' = Exited).
Proof.
  intros H. destruct l; step_paths; simpl_runners; try (left; reflexivity).
  all: try (destruct (decide (j = length (insts s))) as [->|Hne];
            [ rewrite runner_at_snoc_eq; simpl;
              first [ left; unfold runner_at;
                      rewrite lookup_ge_None_2 by lia; reflexivity
                    | right; left; unfold runner_at at 1;
                      rewrite lookup_ge_None_2 by lia; eauto 6 ]
            | left; apply runner_at_snoc_ne; assumption ]).
  all: destruct (decide (j = i)) as [->|Hne];
    [|left; apply runner_at_alter_ne; assumption].
  all: assert (Hlt : i < length (insts s))
         by (apply runner_at_lt; congruence).
  all: rewrite runner_at_alter_set by assumption.
  all: right; right.
  all: first [ left; split; [assumption|]; eexists; split; reflexivity
             | right; eexists; repeat split; eauto ].
Qed.

(** An instance, once made, stays where it is in [insts] with the
    configuration and the handler it was made with; its started,
    shutdown-called and drained marks are never taken back. *)
Lemma instance_snapshot_step l s s' i x :
  step rp l s = Some s' → insts s !! i = Some x →
  ∃ x', insts s' !! i = Some x' ∧
        cfg x' = cfg x ∧ runHandler x' = runHandler x ∧
        (started x = true → started x' = true) ∧
        (shutdownCalled x = true → shutdownCalled x' = true) ∧
        (drained x = true → drained x' = true).
Proof.
  intros H Hx. destruct l; step_paths; try (exists x; auto 10; fail).
  all: try (exists x; split; [apply lookup_app_l_Some; assumption | auto 10];
            fail).
  all: match goal with
       | |- context [alter ?f ?j _] =>
           destruct (decide (j = i)) as [->|Hne];
           [ exists (f x); rewrite list_lookup_alter_eq, Hx; simpl; auto 10
           | exists x; rewrite list_lookup_alter_ne by assumption; auto 10 ]
       end.
Qed.

(** The two places that call [serv.Shutdown()]: the [done] case, on the
    instance the supervisor is running, and the reload goroutine, on the
    instance it was spawned for. *)
Lemma shutdown_call_sites l s s' j :
  step rp l s = Some s' →
  inst_flag shutdownCalled j s = false →
  inst_flag shutdownCalled j s' = true →
  (l = SupSelectDone ∧ sup s = Running j) ∨
  (∃ k, l = TaskStep k ∧ tasks s !! k = Some (j, TaskSpawned)).
Proof.
  intros H Hf. destruct l; step_paths; simpl_flags; intros Ht;
    try congruence.
  all: match goal with
       | H : context [alter set_shutdownCalled ?i _] |- _ =>
           destruct (decide (j = i)) as [->|Hne];
           [|rewrite flag_at_alter_ne in H by assumption; congruence]
       end.
  - left. auto.
  - right. eauto.
Qed.

Lemma task_ids_insert (l : list (nat * TaskPc)) k i pc pc' :
  l !! k = Some (i, pc) → (<[k := (i, pc')]> l).*1 = l.*1.
Proof.
  intros Hk. rewrite list_fmap_insert. simpl. apply list_insert_id.
  rewrite list_lookup_fmap, Hk. reflexivity.
Qed.

(** Reload goroutines are only ever added, one per reload acted on, each
    for the instance that was running. *)
Lemma task_ids_step l s s' :
  step rp l s = Some s' →
  (tasks s').*1 = (tasks s).*1 ∨
  (l = SupSelectReload ∧
   ∃ i, sup s = Running i ∧ (tasks s').*1 = (tasks s).*1 ++ [i]).
Proof.
  intros H. destruct l; step_paths; try (left; reflexivity).
  - right. split; [reflexivity|]. exists i. split; [reflexivity|].
    rewrite fmap_app. reflexivity.
  - left. eapply task_ids_insert; eauto.
  - left. eapply task_ids_insert; eauto.
Qed.

Lemma task_id_lookup (l : list (nat * TaskPc)) i :
  i ∈ l.*1 → ∃ k pc, l !! k = Some (i, pc).
Proof.
  intros Hin. apply list_elem_of_fmap in Hin as ([j pc] & -> & Hin).
  apply list_elem_of_lookup in Hin as [k Hk]. eauto.
Qed.

(** X10. [serv.Shutdown()] is called at most once on any instance: the reload
    goroutines are for pairwise distinct instances, none of them is for the
    instance the supervisor is running, and whichever of the two call sites
    is about to call [Shutdown] on an instance finds that nobody has
    called it on that instance yet. *)
Lemma shutdown_called_at_most_once router path s :
  reachable rp router path s →
  NoDup (tasks s).*1 ∧
  (∀ i, sup s = Running i →
        inst_flag shutdownCalled i s = false ∧ i ∉ (tasks s).*1) ∧
  (∀ k i, tasks s !! k = Some (i, TaskSpawned) →
          inst_flag shutdownCalled i s = false).
Proof.
  intros Hr.
  assert (HT : NoDup (tasks s).*1 ∧
               ∀ k i, tasks s !! k = Some (i, TaskSpawned) →
                      inst_flag shutdownCalled i s = false).
  { revert s Hr. apply reachable_induction.
    { split; [constructor|]. intros k i Hk. unfold RunServer in Hk.
      cbn [tasks] in Hk. rewrite lookup_nil in Hk. discriminate. }
    intros l s s' Hr [Hnd Hsp] H.
    pose proof (reachable_Inv _ _ _ Hr) as [_ _ I3 I5 I6].
    split.
    - destruct (task_ids_step l s s' H) as [->|(_ & i & Hs & ->)];
        [assumption|].
      apply NoDup_app. split; [assumption|]. split; [|apply NoDup_singleton].
      intros j Hj Hj'. apply list_elem_of_singleton in Hj'. subst j.
      apply task_id_lookup in Hj as (k & pc & Hk).
      destruct (I5 k i pc Hk) as [_ Hlt].
      unfold current in Hlt. rewrite Hs in Hlt. specialize (Hlt i eq_refl). lia.
    - intros k i Hk.
      destruct (inst_flag shutdownCalled i s') eqn:Hf'; [|reflexivity].
      exfalso.
      assert (Hold : (∃ k0, tasks s !! k0 = Some (i, TaskSpawned)) ∨
                     (sup s = Running i ∧ l = SupSelectReload)).
      { clear Hf'. destruct l; step_paths; eauto.
        - apply lookup_snoc_Some in Hk as [[_ Hk]|[_ Hk]]; simplify_eq; eauto.
        - apply list_lookup_insert_Some in Hk as [(_ & Hk & _)|[_ Hk]];
            simplify_eq; eauto.
        - apply list_lookup_insert_Some in Hk as [(_ & Hk & _)|[_ Hk]];
            simplify_eq; eauto. }
      destruct Hold as [[k0 Hk0]|[Hs Hl]].
      + pose proof (Hsp k0 i Hk0) as Hf.
        destruct (shutdown_call_sites l s s' i H Hf Hf')
          as [[-> Hs]|(k1 & -> & Hk1)].
        * destruct (I5 k0 i _ Hk0) as [_ Hlt]. unfold current in Hlt.
          rewrite Hs in Hlt. specialize (Hlt i eq_refl). lia.
        * assert (k1 = k).
          { assert (Hk' : tasks s' !! k1 = Some (i, TaskInShutdown)).
            { unfold step, task_step in H.
              destruct (exit s); [discriminate|]. rewrite Hk1 in H.
              simplify_eq. simpl_state. apply list_lookup_insert_eq.
              apply lookup_lt_is_Some. eauto. }
            assert (Hnd' : NoDup (tasks s').*1).
            { destruct (task_ids_step _ s s' H) as [->|(Hx & _)];
                [assumption | discriminate]. }
            eapply (NoDup_lookup _ _ _ i); [exact Hnd'| |];
              rewrite list_lookup_fmap; [rewrite Hk' | rewrite Hk];
              reflexivity. }
          subst k1. unfold step, task_step in H.
          destruct (exit s); [discriminate|]. rewrite Hk1 in H.
          simplify_eq. simpl_state.
          rewrite list_lookup_insert_eq in Hk
            by (apply lookup_lt_is_Some; eauto).
          discriminate.
      + subst l. destruct (I6 i (or_intror Hs)) as [Hf _].
        destruct (shutdown_call_sites _ s s' i H Hf Hf')
          as [[? _]|(k1 & ? & _)]; discriminate. }
  destruct HT as [Hnd Hsp]. split; [assumption|]. split; [|assumption].
  intros i Hs. pose proof (reachable_Inv _ _ _ Hr) as [_ _ _ I5 I6].
  split; [apply I6; auto|].
  intros Hin. apply task_id_lookup in Hin as (k & pc & Hk).
  destruct (I5 k i pc Hk) as [_ Hlt]. unfold current in Hlt.
  rewrite Hs in Hlt. specialize (Hlt i eq_refl). lia.
Qed.

(** X11. The error channel is made afresh at line 94 and only the iteration
    that made it ever receives from it: a runner that reaches the send of
    line 100 for an instance the supervisor is no longer waiting on or
    running stays at that send for ever. *)
Lemma stale_runner_stays_blocked s i e ls s' :
  inst_runner i s = Sending e →
  sup s ≠ WaitStarted i → sup s ≠ Running i →
  run rp ls s = Some s' →
  inst_runner i s' = Sending e ∧ sup s' ≠ WaitStarted i ∧ sup s' ≠ Running i.
Proof.
  intros Hr Hw Hn Hrun.
  apply (run_preserves
           (λ t, inst_runner i t = Sending e ∧
                 sup t ≠ WaitStarted i ∧ sup t ≠ Running i))
    with (ls := ls) (s := s); [|auto|exact Hrun].
  clear. intros l s s' (Hr & Hw & Hn) H. split.
  - destruct (runner_edges l s s' i H)
      as [->|[(Hx & _)|[(Hx & _)|(e' & _ & _ & Hs & _)]]]; congruence.
  - assert (Hlt : i < length (insts s)).
    { apply runner_at_lt. rewrite <- inst_runner_eq. congruence. }
    destruct (sup_edges l s s' H)
      as [->|[(_ & -> & _)|[(j & Hs & -> & _)|[(j & _ & -> & _)
         |[(j & _ & -> & _)|(j & _ & -> & _)]]]]]; try (split; congruence).
    split; [|discriminate]. intros [= Hi]. lia.
Qed.

(** X12. Until the started channel of the instance under way fires, the
    supervisor sits at the receive of line 105: it takes no intent off
    either channel, receives no error from the runner, makes no instance,
    writes no "Server listening" line, and neither releases the wait
    group nor ends the process. *)
Lemma startup_blocks_supervisor i ls s s' :
  sup s = WaitStarted i → inst_flag started i s = false →
  InstStarted i ∉ ls → run rp ls s = Some s' →
  sup s' = WaitStarted i ∧ inst_flag started i s' = false ∧
  length (insts s') = length (insts s) ∧ wg s' = wg s ∧
  exit s' = exit s ∧
  reloadRequested s ≤ reloadRequested s' ∧ done s ≤ done s' ∧
  omap listening_of (trace s') = omap listening_of (trace s) ∧
  (∀ e, inst_runner i s = Sending e → inst_runner i s' = Sending e).
Proof.
  revert s. induction ls as [|l ls IH]; intros s Hs Hst Hnot Hrun;
    simpl in Hrun.
  { simplify_eq. repeat split; auto. }
  destruct (step rp l s) as [s1|] eqn:H; [|discriminate].
  apply not_elem_of_cons in Hnot as [Hl Hnot].
  assert (H1 : sup s1 = WaitStarted i ∧ inst_flag started i s1 = false ∧
               length (insts s1) = length (insts s) ∧ wg s1 = wg s ∧
               exit s1 = exit s ∧
               reloadRequested s ≤ reloadRequested s1 ∧ done s ≤ done s1 ∧
               omap listening_of (trace s1) = omap listening_of (trace s)).
  { clear IH Hrun Hnot. destruct l; step_paths; simpl_flags.
    all: rewrite ?omap_app; simpl omap; rewrite ?app_nil_r, ?length_alter.
    all: try (repeat split; first [assumption | lia | congruence]).
    all: try (exfalso; unfold flag_at in Hst;
              match goal with H : insts _ !! _ = _ |- _ => rewrite H in Hst end;
              congruence).
    all: rewrite flag_at_alter_ne by congruence.
    all: repeat split; first [assumption | lia | congruence]. }
  destruct H1 as (Hs1 & Hst1 & Hlen & Hwg & Hex & Hrl & Hdn & Hlog).
  destruct (IH s1 Hs1 Hst1 Hnot Hrun)
    as (? & ? & ? & ? & ? & ? & ? & ? & Hrn).
  repeat split; try congruence; try lia.
  intros e He. apply Hrn.
  destruct (runner_edges l s s1 i H)
    as [->|[(Hx & _)|[(Hx & _)|(e' & _ & _ & Hsr & _)]]]; congruence.
Qed.

Lemma shutdown_flag_mono l s s' j :
  step rp l s = Some s' →
  inst_flag shutdownCalled j s = true → inst_flag shutdownCalled j s' = true.
Proof.
  intros H Hf. unfold inst_flag, flag_at in *.
  destruct (insts s !! j) as [x|] eqn:E; [|discriminate].
  destruct (instance_snapshot_step l s s' j x H E)
    as (x' & -> & _ & _ & _ & Hsc & _). auto.
Qed.

(** An instance gets its runner in the iteration that makes it the
    current one. *)
Lemma launch_is_current l s s' j :
  step rp l s = Some s' →
  inst_runner j s = NotLaunched → inst_runner j s' ≠ NotLaunched →
  sup s' = WaitStarted j.
Proof.
  intros H Hn. destruct l; step_paths; simpl_runners; try congruence.
  all: try (destruct (decide (j = length (insts s))) as [->|Hne];
            [ rewrite ?runner_at_snoc_eq; simpl; congruence
            | rewrite runner_at_snoc_ne by assumption; congruence ]).
  all: match goal with
       | |- context [alter _ ?i _] =>
           destruct (decide (j = i)) as [->|Hne];
           [congruence | rewrite runner_at_alter_ne by assumption; congruence]
       end.
Qed.

Lemma reload_spawns s s' i :
  step rp SupSelectReload s = Some s' → sup s = Running i →
  (tasks s').*1 = (tasks s).*1 ++ [i].
Proof.
  intros H Hs. step_paths. rewrite fmap_app. reflexivity.
Qed.

Lemma received_error_ends_runner s s' i :
  step rp SupSelectErr s = Some s' → sup s = Running i →
  inst_runner i s' = Exited.
Proof.
  intros H Hs. step_paths; simpl_runners.
  all: apply runner_at_alter_set, runner_at_lt; congruence.
Qed.

(** X13. No instance is left behind unattended: an instance the supervisor has
    moved on from has had [Shutdown] called on it, or has a reload
    goroutine that will, unless its [serv.Run] has already returned with
    the supervisor receiving its error, or it was never launched. *)
Lemma retired_instances_are_shut_down router path s j :
  reachable rp router path s → current s ≠ Some j →
  inst_runner j s = NotLaunched ∨ inst_runner j s = Exited ∨
  inst_flag shutdownCalled j s = true ∨ j ∈ (tasks s).*1.
Proof.
  intros Hr. revert j.
  cut ((∀ j, current s ≠ Some j →
          inst_runner j s = NotLaunched ∨ inst_runner j s = Exited ∨
          inst_flag shutdownCalled j s = true ∨ j ∈ (tasks s).*1) ∧
       (∀ i, sup s = ShuttingDown i → inst_flag shutdownCalled i s = true));
    [tauto|].
  revert s Hr. apply reachable_induction.
  { split; [intros j _; left; reflexivity | discriminate]. }
  intros l s s' Hr [IH1 IH2] H.
  pose proof (reachable_Inv _ _ _ Hr) as [_ _ I3 _ _].
  assert (H2 : ∀ i, sup s' = ShuttingDown i →
                    inst_flag shutdownCalled i s' = true).
  { intros i Hs'.
    destruct (step_enter_shutdown l s s' i H Hs') as [Hs|(-> & Hs & _)].
    - eapply shutdown_flag_mono; eauto.
    - specialize (I3 i). unfold current in I3. rewrite Hs in I3.
      specialize (I3 eq_refl). clear IH1 IH2. step_paths. simplify_eq.
      unfold inst_flag. simpl_state. apply flag_at_alter_set; [reflexivity|lia]. }
  split; [|exact H2].
  intros j Hj.
  assert (Hkeep : inst_runner j s = NotLaunched ∨ inst_runner j s = Exited ∨
                  inst_flag shutdownCalled j s = true ∨ j ∈ (tasks s).*1 →
                  inst_runner j s' = NotLaunched ∨ inst_runner j s' = Exited ∨
                  inst_flag shutdownCalled j s' = true ∨ j ∈ (tasks s').*1).
  { intros [Hn|[Hx|[Hf|Ht]]].
    - destruct (inst_runner j s') eqn:E; [left; reflexivity| | |];
        exfalso; apply Hj; unfold current;
        rewrite (launch_is_current l s s' j H Hn); [reflexivity | congruence
                                                    | reflexivity | congruence
                                                    | reflexivity | congruence].
    - destruct (runner_edges l s s' j H)
        as [->|[(Hy & _)|[(Hy & _)|(e' & Hy & _)]]]; try congruence. auto.
    - right; right; left. eapply shutdown_flag_mono; eauto.
    - right; right; right.
      destruct (task_ids_step l s s' H) as [->|(_ & i & _ & ->)];
        [assumption | apply elem_of_app; auto]. }
  destruct (decide (current s = Some j)) as [Hc|Hc]; [|apply Hkeep, IH1, Hc].
  unfold current in Hc, Hj.
  destruct (sup_edges l s s' H)
    as [Heq|[(Hs & _)|[(i & Hs & Hs' & _)|[(i & Hs & Hs' & Hl)
       |[(i & Hs & Hs' & _)|(i & Hs & Hs' & _)]]]]].
  - rewrite Heq in Hj. contradiction.
  - rewrite Hs in Hc. discriminate.
  - rewrite Hs in Hc. rewrite Hs' in Hj. contradiction.
  - rewrite Hs in Hc. simplify_eq. destruct Hl as [->| ->].
    + right; right; right. rewrite (reload_spawns s s' j H Hs).
      apply elem_of_app. right. apply list_elem_of_singleton. reflexivity.
    + right; left. eapply received_error_ends_runner; eauto.
  - rewrite Hs in Hc. rewrite Hs' in Hj. contradiction.
  - rewrite Hs in Hc. simplify_eq. right; right; left.
    eapply shutdown_flag_mono; eauto.
Qed.

Lemma instance_snapshot_run ls :
  ∀ s s' i x,
    run rp ls s = Some s' → insts s !! i = Some x →
    ∃ x', insts s' !! i = Some x' ∧
          cfg x' = cfg x ∧ runHandler x' = runHandler x ∧
          (started x = true → started x' = true) ∧
          (shutdownCalled x = true → shutdownCalled x' = true) ∧
          (drained x = true → drained x' = true).
Proof.
  induction ls as [|l ls IH]; intros s s' i x Hrun Hx; simpl in Hrun.
  - simplify_eq. exists x. auto 10.
  - destruct (step rp l s) as [s1|] eqn:H; [|discriminate].
    destruct (instance_snapshot_step l s s1 i x H Hx)
      as (x1 & Hx1 & Hc & Hh & Hs & Hsc & Hd).
    destruct (IH s1 s' i x1 Hrun Hx1) as (x' & Hx' & Hc' & Hh' & Hs' & Hsc' & Hd').
    exists x'. split; [assumption|]. repeat split; try congruence; auto.
Qed.

(** Every [serv.Run] gets the one handler fixed at lines 58-61: the
    indirection when there is a parent router, nil when there is none. *)
Lemma run_handler_fixed router path s :
  reachable rp router path s →
  replaceableHandler s = handler_for router ∧
  ∀ i x, insts s !! i = Some x → runHandler x = handler_for router.
Proof.
  revert s. apply reachable_induction.
  { split; [reflexivity|]. intros i x Hx. unfold RunServer in Hx.
    cbn [insts] in Hx. rewrite lookup_nil in Hx. discriminate. }
  intros l s s' _ [Hh Hi] H. destruct l; step_paths; split; try assumption.
  all: intros j y Hy.
  all: try (apply lookup_snoc_Some in Hy as [[_ Hy]|[_ Hy]];
            [eapply Hi; eassumption | subst y; simpl; assumption]).
  all: rewrite list_lookup_alter in Hy;
    match type of Hy with
    | context [decide (?a = ?b)] => destruct (decide (a = b))
    end; [|eapply Hi; eassumption].
  all: apply fmap_Some in Hy as (x & Hx & ->); simpl.
  all: eapply Hi; eassumption.
Qed.

(** X14. Instances are never reused or rewritten: at any later point of the
    run an instance is still in its place, with the configuration it was
    given at line 67-70 and the handler of lines 58-61, and what has
    happened to it (started, [Shutdown] called, drained) still holds. *)
Lemma instances_keep_their_snapshot router path s ls s' i x :
  reachable rp router path s → run rp ls s = Some s' →
  insts s !! i = Some x →
  runHandler x = handler_for router ∧ length (insts s) ≤ length (insts s') ∧
  ∃ x', insts s' !! i = Some x' ∧
        cfg x' = cfg x ∧ runHandler x' = runHandler x ∧
        (started x = true → started x' = true) ∧
        (shutdownCalled x = true → shutdownCalled x' = true) ∧
        (drained x = true → drained x' = true).
Proof.
  intros Hr Hrun Hx. split; [eapply run_handler_fixed; eauto|]. split.
  - destruct (decide (length (insts s) ≤ length (insts s'))) as [|Hn];
      [assumption|]. exfalso.
    assert (Hlast : is_Some (insts s !! pred (length (insts s)))).
    { apply lookup_lt_is_Some. apply lookup_lt_Some in Hx. lia. }
    destruct Hlast as [y Hy].
    destruct (instance_snapshot_run ls s s' _ y Hrun Hy) as (y' & Hy' & _).
    apply lookup_lt_Some in Hy'. lia.
  - eapply instance_snapshot_run; eauto.
Qed.

Lemma HasSuffix_append (s suffix : string) :
  HasSuffix (s +:+ suffix) suffix = true.
Proof.
  induction s as [|c s IH].
  - change ("" +:+ suffix) with suffix.
    destruct suffix; simpl; rewrite ?Ascii.eqb_refl, ?String.eqb_refl;
      reflexivity.
  - change (String c s +:+ suffix) with (String c (s +:+ suffix)).
    simpl HasSuffix.
    match goal with
    | |- (if ?b then _ else _) = _ => destruct b; [reflexivity | exact IH]
    end.
Qed.

(** X15. A prefix logged as mounted is on the parent router, bound to the
    indirection, and so is a pattern for the subtree under it: the prefix
    itself if it ends in the separator, the prefix followed by the
    separator if not. *)
Lemma mounted_prefix_serves_subtree mux0 path s p :
  reachable rp (Some mux0) path s → LogMounted p ∈ trace s →
  ∃ mux q,
    parentRouter s = Some mux ∧
    (p, Some ReplaceableHandlerPtr) ∈ mux ∧
    (q, Some ReplaceableHandlerPtr) ∈ mux ∧
    HasSuffix q "/" = true ∧ (q = p ∨ q = p +:+ "/").
Proof.
  intros Hr Hin. destruct (router_contents mux0 path s Hr) as (_ & Hp & _ & _).
  assert (Hm : p ∈ omap mounted_of (trace s)).
  { apply list_elem_of_omap. exists (LogMounted p). auto. }
  assert (Hsub : ∀ r, r ∈ handlers_for (Some ReplaceableHandlerPtr) p →
                      r ∈ mux0 ++ flat_map (handlers_for (Some ReplaceableHandlerPtr))
                                   (omap mounted_of (trace s))).
  { intros r Hrin. apply elem_of_app. right. apply list_elem_of_In.
    apply in_flat_map. exists p. split; apply list_elem_of_In; assumption. }
  eexists. exists (if HasSuffix p "/" then p else p +:+ "/").
  split; [exact Hp|]. split; [apply Hsub; left|]. split.
  - apply Hsub. unfold handlers_for. destruct (HasSuffix p "/");
      [left | right; left].
  - destruct (HasSuffix p "/") eqn:E; [auto|].
    split; [apply HasSuffix_append | auto].
Qed.

Lemma fmap_alter_same {B : Type} (g : Inst → B) f (l : list Inst) j :
  (∀ x, g (f x) = g x) → g <$> alter f j l = g <$> l.
Proof.
  intros Hf. apply list_eq. intros k.
  rewrite !list_lookup_fmap, list_lookup_alter. case_decide; [|reflexivity].
  subst. destruct (l !! k); simpl; [rewrite Hf|]; reflexivity.
Qed.

(** X16. The "Server listening" lines.  With a parent router there is never
    one.  Without, there is exactly one per instance the supervisor has
    seen start, in the order of the instances, each with the listen
    address of its instance's configuration. *)
Lemma listening_lines_follow_instances router path s :
  reachable rp router path s →
  omap listening_of (trace s) =
    match router with
    | None => take (passed s) ((λ x, ListenAddress (cfg x)) <$> insts s)
    | Some _ => []
    end.
Proof.
  intros Hr.
  cut ((router = None ↔ parentRouter s = None) ∧
       omap listening_of (trace s) =
         match router with
         | None => take (passed s) ((λ x, ListenAddress (cfg x)) <$> insts s)
         | Some _ => []
         end); [tauto|].
  revert s Hr. apply reachable_induction.
  { split; [simpl; tauto | destruct router; reflexivity]. }
  intros l s s' Hr [Hp IH] H.
  pose proof (reachable_Inv _ _ _ Hr) as [_ _ I3 _ _]. unfold current in I3.
  destruct router as [m|].
  - assert (Hsome : parentRouter s ≠ None) by (intros Hn; apply Hp in Hn; discriminate).
    clear Hp. destruct l; step_paths; count_trace.
    all: split; [split; intros; congruence | assumption].
  - assert (Hnone : parentRouter s = None) by (apply Hp; reflexivity).
    clear Hp. unfold passed in *.
    destruct l; step_paths; count_trace; try congruence.
    all: split; [tauto|].
    all: rewrite ?fmap_app, ?length_alter, ?length_app.
    all: rewrite ?(fmap_alter_same (λ x, ListenAddress (cfg x)))
           by (intros []; reflexivity).
    all: try match goal with H : sup _ = _ |- _ => rewrite H in * end.
    all: try assumption.
    + simpl. rewrite Nat.add_1_r. simpl.
      rewrite take_app_length' by (rewrite length_fmap; reflexivity).
      rewrite IH. apply take_ge. rewrite length_fmap. lia.
    + simpl. rewrite Nat.add_1_r. simpl.
      rewrite take_app_length' by (rewrite length_fmap; reflexivity).
      rewrite IH. apply take_ge. rewrite length_fmap. lia.
    + specialize (I3 _ eq_refl). rewrite IH, <- I3. simpl.
      symmetry. apply take_S_r. rewrite list_lookup_fmap.
      match goal with H : insts _ !! _ = _ |- _ => rewrite H end. reflexivity.
Qed.

(** X8. The supervisor as a state machine: the only edges are Starting to
    WaitStarted (a new instance, by an iteration), WaitStarted to Running
    (on the started channel, which has fired), Running to Starting
    (reload, or an error that is not fatal), Running to ShuttingDown (on
    [done]) and ShuttingDown to Stopped (when [Shutdown] returns).
    Nothing leaves Stopped. *)
Theorem supervisor_state_machine l s s' :
  step rp l s = Some s' →
  sup s' = sup s ∨
  (sup s = Starting ∧ sup s' = WaitStarted (length (insts s)) ∧
   ∃ c e, l = SupIterate c e) ∨
  (∃ i, sup s = WaitStarted i ∧ sup s' = Running i ∧ l = SupStarted ∧
        inst_flag started i s = true) ∨
  (∃ i, sup s = Running i ∧ sup s' = Starting ∧
        (l = SupSelectReload ∨ l = SupSelectErr)) ∨
  (∃ i, sup s = Running i ∧ sup s' = ShuttingDown i ∧ l = SupSelectDone) ∨
  (∃ i, sup s = ShuttingDown i ∧ sup s' = Stopped ∧ l = SupShutdownReturns).
Proof. exact (sup_edges l s s'). Qed.

(** X9. The goroutine of lines 97-102, per instance: launched by the
    iteration that made the instance, it leaves [serv.Run] once, and if it
    has an error to hand over it waits at line 100 until the supervisor,
    in Running on that very instance, receives it. *)
Theorem runner_lifecycle l s s' j :
  step rp l s = Some s' →
  inst_runner j s' = inst_runner j s ∨
  (inst_runner j s = NotLaunched ∧ j = length (insts s) ∧
   (∃ c e, l = SupIterate c e) ∧ inst_runner j s' = InRun) ∨
  (inst_runner j s = InRun ∧
   ∃ err, l = RunReturns j err ∧
          inst_runner j s' = match err with
                             | Some e => Sending e
                             | None => Exited
                             end) ∨
  (∃ e, inst_runner j s = Sending e ∧ l = SupSelectErr ∧
        sup s = Running j ∧ inst_runner j s' = Exited).
Proof. exact (runner_edges l s s' j). Qed.

(** X18. What [runLoop] does to the parent router: it keeps what the
    router held, and adds the calls of one registration block per distinct
    derived prefix, in the order the prefixes first appeared, all bound to
    the one indirection; [registeredPrefixes] holds exactly those
    prefixes. *)
Theorem parent_router_contents mux0 path s :
  reachable rp (Some mux0) path s →
  replaceableHandler s = Some ReplaceableHandlerPtr ∧
  parentRouter s =
    Some (mux0 ++ flat_map (handlers_for (Some ReplaceableHandlerPtr))
                    (omap mounted_of (trace s))) ∧
  NoDup (omap mounted_of (trace s)) ∧
  (∀ p, p ∈ registeredPrefixes s ↔ p ∈ omap mounted_of (trace s)).
Proof. exact (router_contents mux0 path s). Qed.

End Supervisor.

(** * Properties of the handler indirection *)

Module HandlerIndirectionFacts.
Import HandlerIndirection.

Lemma installed_snoc sw d k :
  k ≤ length sw → installed (sw ++ [d]) k = installed sw k.
Proof.
  intros Hk. destruct k as [|j]; simpl; [reflexivity|].
  rewrite lookup_app_l by lia. reflexivity.
Qed.

Lemma installed_last sw d :
  installed (sw ++ [d]) (length (sw ++ [d])) = ref_of d.
Proof.
  rewrite length_app. simpl. rewrite Nat.add_1_r. simpl.
  rewrite lookup_app_r by lia. rewrite Nat.sub_diag. reflexivity.
Qed.

(** A reference in force is whole, and is null only before the first swap. *)
Lemma installed_whole sw k :
  k ≤ length sw →
  match k with
  | O => installed sw k = null
  | S j => ∃ d, sw !! j = Some d ∧ installed sw k = ref_of d
  end.
Proof.
  intros Hk. destruct k as [|j]; simpl; [reflexivity|].
  destruct (lookup_lt_is_Some_2 sw j) as [d Hd]; [lia|].
  exists d. rewrite Hd. auto.
Qed.

Lemma forallb_not_holding l t pc :
  forallb (λ pc, negb (holding pc)) l = true →
  l !! t = Some pc → holding pc = false.
Proof.
  intros Hall Ht. rewrite forallb_forall in Hall.
  specialize (Hall pc). rewrite <- list_elem_of_In in Hall.
  apply negb_true_iff, Hall. eapply list_elem_of_lookup_2; eauto.
Qed.

Lemma ok_init n : ok (init n).
Proof.
  split; simpl; try congruence; auto.
  - intros t pc Ht. apply lookup_replicate_1 in Ht as [-> _]. exact I.
  - intros o Ho. apply elem_of_nil in Ho. destruct Ho.
Qed.

Ltac caller_cases Hl :=
  apply list_lookup_insert_Some in Hl;
  destruct Hl as [(Heq & <- & Hlt)|(Hne & Hl)]; [symmetry in Heq; subst|].

Lemma ok_step o s s' : ok s → step o s = Some s' → ok s'.
Proof.
  intros [E S1 S2 L O] H. destruct o; simpl in H.
  - (* SwapLock *)
    unfold swap_step in H. destruct (swapper s) eqn:Hsw; try discriminate.
    destruct (forallb _ _) eqn:Hall; [|discriminate]. simplify_eq.
    split; simpl; auto; try congruence.
    intros _ t pc Ht. eapply forallb_not_holding; eauto.
  - (* SwapStore *)
    unfold swap_step in H. destruct (swapper s) eqn:Hsw; simplify_eq.
    + split; simpl; auto; try congruence.
      * intros _. apply E. congruence.
      * intros t pc Ht. specialize (L t pc Ht).
        assert (Hh : holding pc = false) by (eapply E; eauto; congruence).
        destruct pc; simpl in *; auto; discriminate.
    + split; simpl; auto; try congruence.
      * intros _. apply E. congruence.
      * destruct (slot s) as [a b]. simpl in *. subst a. reflexivity.
      * intros t pc Ht. specialize (L t pc Ht).
        assert (Hh : holding pc = false) by (eapply E; eauto; congruence).
        destruct pc; simpl in *; auto; discriminate.
  - (* SwapUnlock *)
    unfold swap_step in H. destruct (swapper s) eqn:Hsw; simplify_eq.
    split; simpl; try congruence.
    + intros _. rewrite S2. symmetry. apply installed_last.
    + exact I.
    + intros t pc Ht. specialize (L t pc Ht). rewrite length_app. simpl.
      destruct pc; simpl in *; auto; try lia.
      * split; [lia|]. apply L.
      * split; [lia|]. apply L.
    + intros o Ho. destruct (O o Ho) as (Hb & He & Ht).
      rewrite length_app. simpl. split; [assumption|]. split; [lia|].
      rewrite installed_snoc by lia. assumption.
  - (* CallBegin *)
    unfold call_step in H. destruct (callers s !! t) as [[]|] eqn:Hc; simplify_eq.
    split; simpl; auto.
    + intros Hsw t' pc Hl. caller_cases Hl; [reflexivity | apply (E Hsw _ _ Hl)].
    + intros t' pc Hl. caller_cases Hl; [simpl; lia | apply (L _ _ Hl)].
  - (* CallLock *)
    unfold call_step in H.
    destruct (callers s !! t) as [[]|] eqn:Hc; simplify_eq.
    destruct (swapper s) eqn:Hsw; simplify_eq.
    split; simpl; auto; try congruence.
    + rewrite Hsw. exact I.
    + intros t' pc Hl. caller_cases Hl; [apply (L t _ Hc) | apply (L _ _ Hl)].
  - (* CallLoad *)
    unfold call_step in H.
    destruct (callers s !! t) as [[]|] eqn:Hc; simplify_eq.
    + split; simpl; auto.
      * intros Hsw t' pc Hl. specialize (E Hsw t _ Hc). discriminate.
      * intros t' pc Hl. caller_cases Hl; [|apply (L _ _ Hl)].
        split; [apply (L t _ Hc) | reflexivity].
    + split; simpl; auto.
      * intros Hsw t' pc Hl. specialize (E Hsw t _ Hc). discriminate.
      * intros t' pc Hl. caller_cases Hl; [|apply (L _ _ Hl)].
        destruct (L t _ Hc) as [Hk ->]. split; [assumption|].
        destruct (slot s); reflexivity.
  - (* CallUnlock *)
    unfold call_step in H.
    destruct (callers s !! t) as [[]|] eqn:Hc; simplify_eq.
    destruct (L t _ Hc) as [Hk ->].
    assert (Hidle : swapper s = SwapIdle).
    { destruct (swapper s) eqn:Hsw; [reflexivity| | |];
        (assert (Hh : holding (CallLoaded k0 (slot s)) = false)
           by (apply (E ltac:(discriminate) t); exact Hc));
        discriminate. }
    split; simpl; auto.
    + intros Hsw t' pc Hl. caller_cases Hl; [reflexivity | apply (E Hsw _ _ Hl)].
    + intros t' pc Hl. caller_cases Hl; [exact I | apply (L _ _ Hl)].
    + intros o Ho. apply elem_of_app in Ho as [Ho|Ho]; [auto|].
      apply list_elem_of_singleton in Ho. subst o. simpl.
      split; [assumption|]. split; [lia|]. auto.
Qed.

Lemma run_ok os : ∀ s s', ok s → run os s = Some s' → ok s'.
Proof.
  induction os as [|o os IH]; intros s s' Hok Hrun; simpl in Hrun.
  - congruence.
  - destruct (step o s) as [s1|] eqn:E; [|discriminate].
    eapply IH; [|exact Hrun]. eapply ok_step; eauto.
Qed.

(** C9. Whatever the interleaving of the moves of the supervisor's swaps
    and of the threads' delegations, every delegation forwards to a whole
    reference: the one installed by the last swap completed when it
    forwards, which is not older than the one in force when the call
    began; it is never a mix of two references, and it is null only if no
    swap had completed by then. *)
Theorem delegation_never_torn (n : nat) (os : list Op) (s : slot_state) :
  run os (init n) = Some s →
  ∀ o, o ∈ observed s →
    began o ≤ ended o ∧ ended o ≤ length (swaps s) ∧
    target o = installed (swaps s) (ended o) ∧
    (target o = null ∨ ∃ d, d ∈ swaps s ∧ target o = ref_of d) ∧
    (1 ≤ ended o → ∃ d, d ∈ swaps s ∧ target o = ref_of d) ∧
    (target o = null → began o = 0 ∧ ended o = 0).
Proof.
  intros Hrun o Ho.
  destruct (run_ok os _ _ (ok_init n) Hrun) as [_ _ _ _ O].
  destruct (O o Ho) as (Hb & He & Ht).
  split; [assumption|]. split; [assumption|]. split; [assumption|].
  pose proof (installed_whole (swaps s) (ended o) He) as Hw.
  destruct (ended o) as [|j] eqn:Hj.
  - rewrite Ht, Hw. split; [auto|]. split; [lia|]. intros _. lia.
  - destruct Hw as (d & Hd & Hr). rewrite Ht, Hr.
    assert (Hin : d ∈ swaps s) by (eapply list_elem_of_lookup_2; eauto).
    split; [eauto|]. split; [eauto|]. discriminate.
Qed.

End HandlerIndirectionFacts.

(** * The properties on sample runs *)

(** A [SIGTERM] while the first instance serves. *)
Lemma shutdown_intent_stops_supervisor_witness :
  sup sample_done_pending = Running 0 ∧ done sample_done_pending = 1 ∧
  ∃ s1,
    step routePrefixFromBasePath_spec SupSelectDone sample_done_pending
      = Some s1 ∧
    sup s1 = ShuttingDown 0 ∧ inst_flag shutdownCalled 0 s1 = true.
Proof.
  split; [(vm_compute; reflexivity)|]. split; [(vm_compute; reflexivity)|].
  destruct (shutdown_intent_stops_supervisor routePrefixFromBasePath_spec
              None sample_path sample_done_pending 0)
    as (s1 & H1 & H2 & H3 & _).
  - exists (boot ++ [OsSignal SIGTERM; HandlerStep; HandlerStep]). (vm_compute; reflexivity).
  - (vm_compute; reflexivity).
  - (vm_compute; reflexivity).
  - vm_compute. lia.
  - exists s1. split; [exact H1|]. split; [exact H2 | exact H3].
Defined.

(** A [SIGHUP] while the first instance serves behind a parent router. *)
Lemma reload_intent_restarts_without_waiting_witness :
  sup sample_reload_pending = Running 0 ∧
  reloadRequested sample_reload_pending = 1 ∧
  ∃ s1,
    step routePrefixFromBasePath_spec SupSelectReload sample_reload_pending
      = Some s1 ∧
    sup s1 = Starting ∧ inst_flag drained 0 s1 = false.
Proof.
  split; [(vm_compute; reflexivity)|]. split; [(vm_compute; reflexivity)|].
  destruct (reload_intent_restarts_without_waiting
              routePrefixFromBasePath_spec (Some []) sample_path
              sample_reload_pending 0)
    as (s1 & H1 & H2 & _ & _ & _ & _ & H3 & _).
  - exists (boot ++ [OsSignal SIGHUP; HandlerStep; HandlerStep]). (vm_compute; reflexivity).
  - (vm_compute; reflexivity).
  - (vm_compute; reflexivity).
  - vm_compute. lia.
  - exists s1. split; [exact H1|]. split; [exact H2 | exact H3].
Defined.

(** [serv.Run] returning [http.ErrServerClosed], and returning a bind
    error. *)
Lemma instance_failure_restart_or_fatal_witness :
  (∃ s1,
     step routePrefixFromBasePath_spec SupSelectErr
       (sample_failed ErrServerClosed) = Some s1 ∧
     exit s1 = None ∧ sup s1 = Starting) ∧
  (∃ s1,
     step routePrefixFromBasePath_spec SupSelectErr
       (sample_failed (ErrOther "bind: address already in use")) = Some s1 ∧
     exit s1 = Some ExitFatal).
Proof.
  split.
  - destruct (instance_failure_restart_or_fatal routePrefixFromBasePath_spec
                (sample_failed ErrServerClosed) 0 ErrServerClosed)
      as (s1 & H1 & H2 & _); [(vm_compute; reflexivity) | (vm_compute; reflexivity) | (vm_compute; reflexivity) |].
    destruct (H2 eq_refl) as (Ha & Hb & _). exists s1. auto.
  - destruct (instance_failure_restart_or_fatal routePrefixFromBasePath_spec
                (sample_failed (ErrOther "bind: address already in use")) 0
                (ErrOther "bind: address already in use"))
      as (s1 & H1 & _ & H2); [(vm_compute; reflexivity) | (vm_compute; reflexivity) | (vm_compute; reflexivity) |].
    destruct H2 as (Ha & _); [discriminate|]. exists s1. auto.
Defined.

(** The empty base path behind a parent router. *)
Lemma invalid_base_path_panics_witness :
  routePrefixFromBasePath_spec "" = Err (ErrOther "invalid base path") ∧
  ∃ s1,
    step routePrefixFromBasePath_spec (SupIterate (mkConfig "" ":8088") None)
      (RunServer (Some []) sample_path) = Some s1 ∧
    exit s1 = Some (ExitPanic (ErrOther "invalid base path")) ∧
    inst_runner 0 s1 = NotLaunched.
Proof.
  split; [(vm_compute; reflexivity)|].
  destruct (invalid_base_path_panics routePrefixFromBasePath_spec
              (RunServer (Some []) sample_path) [] (mkConfig "" ":8088") None
              (ErrOther "invalid base path"))
    as (s1 & H1 & H2 & H3 & _);
    [(vm_compute; reflexivity) | (vm_compute; reflexivity) | (vm_compute; reflexivity) | (vm_compute; reflexivity) |].
  exists s1. auto.
Defined.

(** A missing configuration file on the first iteration. *)
Lemma config_load_failure_is_not_fatal_witness :
  ∃ s1,
    step routePrefixFromBasePath_spec
      (SupIterate sample_config (Some (ErrOther "no such file")))
      (RunServer (Some []) sample_path) = Some s1 ∧
    exit s1 = None ∧ sup s1 = WaitStarted 0.
Proof.
  destruct (config_load_failure_is_not_fatal routePrefixFromBasePath_spec
              (RunServer (Some []) sample_path) sample_config
              (ErrOther "no such file"))
    as (_ & s1 & s0 & H1 & H0 & _ & Hx & _ & _ & _ & _ & Hl);
    [(vm_compute; reflexivity) | (vm_compute; reflexivity) |].
  assert (He : exit s1 = None).
  { rewrite Hx. vm_compute in H0. injection H0 as <-. (vm_compute; reflexivity). }
  exists s1. split; [exact H1|]. split; [exact He|].
  destruct (Hl He) as [Hs _]. exact Hs.
Defined.

(** C7 as the spec states it fails: after two [SIGHUP]s in a row the
    worker is stuck at its second send, and once the supervisor has taken
    the first token the second one is delivered too. *)
Lemma signal_handler_blocks_on_pending_intent :
  reachable routePrefixFromBasePath_spec None sample_path sample_second_reload ∧
  sigH sample_second_reload = HSend Reload ∧
  reloadRequested sample_second_reload = 1 ∧
  step routePrefixFromBasePath_spec HandlerStep sample_second_reload = None ∧
  omap sent_of
    (trace (after routePrefixFromBasePath_spec
              [InstStarted 0; SupStarted; SupSelectReload; HandlerStep]
              sample_second_reload)) = [Reload; Reload] ∧
  reloadRequested
    (after routePrefixFromBasePath_spec
       [InstStarted 0; SupStarted; SupSelectReload; HandlerStep]
       sample_second_reload) = 1.
Proof.
  split.
  { exists [SupIterate sample_config None;
            OsSignal SIGHUP; HandlerStep; HandlerStep; OsSignal SIGHUP;
            HandlerStep].
    vm_compute. reflexivity. }
  repeat split; vm_compute; reflexivity.
Qed.

(** The first [SIGHUP] goes through, the second waits. *)
Lemma intent_delivery_blocks_while_pending_witness :
  (∃ s',
     step routePrefixFromBasePath_spec HandlerStep sample_first_reload
       = Some s' ∧ chan Reload s' = 1 ∧ sigH s' = HRecv) ∧
  step routePrefixFromBasePath_spec HandlerStep sample_second_reload = None.
Proof.
  split.
  - destruct (intent_delivery_blocks_while_pending
                routePrefixFromBasePath_spec sample_first_reload Reload)
      as [H0 _]; [vm_compute; reflexivity | vm_compute; reflexivity |].
    destruct H0 as (s' & H1 & H2 & H3 & _); [vm_compute; reflexivity|].
    exists s'. auto.
  - destruct (intent_delivery_blocks_while_pending
                routePrefixFromBasePath_spec sample_second_reload Reload)
      as [_ H1]; [vm_compute; reflexivity | vm_compute; reflexivity |].
    destruct H1 as [Hb _]; [vm_compute; lia|]. exact Hb.
Defined.

(** Two [SIGHUP]s received, one sent on and one pending; [SIGTERM] under
    the switch. *)
Lemma signal_translation_witness :
  omap sent_of (trace sample_second_reload)
    ++ pending (sigH sample_second_reload) =
  omap switch_sig (omap received_of (trace sample_second_reload)) ∧
  (Shutdown = Reload ∧ SIGTERM = SIGHUP ∨
   Shutdown = Shutdown ∧ (SIGTERM = SIGINT ∨ SIGTERM = SIGTERM)).
Proof.
  destruct (signal_translation routePrefixFromBasePath_spec None sample_path
              sample_second_reload) as (_ & _ & _ & Hk & Hs).
  - exists [SupIterate sample_config None;
            OsSignal SIGHUP; HandlerStep; HandlerStep; OsSignal SIGHUP;
            HandlerStep].
    vm_compute. reflexivity.
  - split; [exact Hs|]. apply Hk. vm_compute. reflexivity.
Defined.

(** Standalone, the first instance has started: the supervisor passes
    line 105 and logs the listen address. *)
Lemma standalone_mode_skips_registration_witness :
  parentRouter sample_wait_started = None ∧
  registeredPrefixes sample_wait_started = ∅ ∧
  ∃ s',
    step routePrefixFromBasePath_spec SupStarted sample_wait_started
      = Some s' ∧
    sup s' = Running 0 ∧
    emitted sample_wait_started s' = [LogListening ":8088"].
Proof.
  destruct (standalone_mode_skips_registration routePrefixFromBasePath_spec
              sample_path sample_wait_started)
    as (Hp & _ & Hr & _ & _ & _ & _ & _ & _ & Hst).
  - exists [SupIterate sample_config None; InstStarted 0].
    vm_compute. reflexivity.
  - split; [exact Hp|]. split; [exact Hr|].
    destruct (Hst 0 (mkInst sample_config None InRun true false false))
      as [_ Hgo]; [vm_compute; reflexivity | vm_compute; reflexivity
                  | vm_compute; reflexivity |].
    apply Hgo. vm_compute. reflexivity.
Defined.

(** C4 at the failing input: the base path is [/a], then, after a reload,
    [/a/].  The first iteration registers [/a] and [/a/]; the second finds
    [/a/] absent from [registeredPrefixes] and registers it again. *)
Lemma trailing_separator_prefix_registered_twice :
  routePrefixFromBasePath_spec "/a" = Ok "/a" ∧
  routePrefixFromBasePath_spec "/a/" = Ok "/a/" ∧
  ∃ s,
    run routePrefixFromBasePath_spec alias_run (RunServer (Some []) sample_path)
      = Some s ∧
    exit s = None ∧
    parentRouter s =
      Some [("/a", Some ReplaceableHandlerPtr);
            ("/a/", Some ReplaceableHandlerPtr);
            ("/a/", Some ReplaceableHandlerPtr)] ∧
    registrations "/a/" s = 2.
Proof.
  split; [reflexivity|]. split; [reflexivity|].
  eexists. split; [vm_compute; reflexivity|].
  repeat split; vm_compute; reflexivity.
Qed.

(** Two threads and one swap: thread 0 begins before the swap, takes the
    lock after it and forwards to the new delegate. *)
Lemma delegation_never_torn_witness :
  ∃ s,
    HandlerIndirection.run
      [HandlerIndirection.CallBegin 0; HandlerIndirection.SwapLock 7;
       HandlerIndirection.SwapStore; HandlerIndirection.CallBegin 1;
       HandlerIndirection.SwapStore; HandlerIndirection.SwapUnlock;
       HandlerIndirection.CallLock 0; HandlerIndirection.CallLoad 0;
       HandlerIndirection.CallLock 1; HandlerIndirection.CallLoad 0;
       HandlerIndirection.CallLoad 1; HandlerIndirection.CallUnlock 0]
      (HandlerIndirection.init 2) = Some s ∧
    HandlerIndirection.observed s =
      [HandlerIndirection.mkObs 0 (HandlerIndirection.ref_of 7) 1] ∧
    ∃ d,
      HandlerIndirection.target
        (HandlerIndirection.mkObs 0 (HandlerIndirection.ref_of 7) 1)
      = HandlerIndirection.ref_of d.
Proof.
  eexists. split; [vm_compute; reflexivity|]. split; [vm_compute; reflexivity|].
  edestruct (HandlerIndirectionFacts.delegation_never_torn 2
               [HandlerIndirection.CallBegin 0; HandlerIndirection.SwapLock 7;
                HandlerIndirection.SwapStore; HandlerIndirection.CallBegin 1;
                HandlerIndirection.SwapStore; HandlerIndirection.SwapUnlock;
                HandlerIndirection.CallLock 0; HandlerIndirection.CallLoad 0;
                HandlerIndirection.CallLock 1; HandlerIndirection.CallLoad 0;
                HandlerIndirection.CallLoad 1; HandlerIndirection.CallUnlock 0])
    as (_ & _ & _ & _ & Hd & _).
  - vm_compute. reflexivity.
  - vm_compute. apply list_elem_of_here.
  - destruct Hd as (d & _ & Hd); [vm_compute; lia|]. exists d. exact Hd.
Defined.

(** The scenario of the spec: base path [/upload] behind a parent router,
    three reloads.  Four instances have been launched, [/upload] and
    [/upload/] have one registration each, on the indirection. *)
Example three_reloads_one_registration :
  sup sample_three_reloads = WaitStarted 3 ∧
  length (insts sample_three_reloads) = 4 ∧
  parentRouter sample_three_reloads =
    Some [("/upload", Some ReplaceableHandlerPtr);
          ("/upload/", Some ReplaceableHandlerPtr)] ∧
  registrations "/upload" sample_three_reloads = 1 ∧
  registrations "/upload/" sample_three_reloads = 1 ∧
  mounts "/upload" sample_three_reloads = 1.
Proof. repeat split; vm_compute; reflexivity. Qed.
